(** * typed: Option, Result and the parser combinators

    A shallow embedding of the TypeScript sources:

    - [src/option.ts], the class [Option]            ([Module OptionClass])
    - the function-style option module               ([Module OptionFn])
    - the class [Result]                             ([Module ResultClass])
    - [src/result.ts], the function-style result     ([Module ResultFn])
    - [src/util.ts]: [raise], [identity], [Type], [getTypeOf]
    - [src/guards.ts]: the type guards
    - the array functions ([Module ArrayFn]) and the class [List]
      ([Module ListClass]), over the built-in array operations
      ([Module JsArray])
    - the parser module: [ParseError], [typeErr], [string], [number],
      [array], [object], [record], [tuple], [union], ...  ([Module P];
      [string] is [P.string_] here)

    A JavaScript call either returns a value or throws; [Outcome] records
    which.  [Option] and [Result] values have no field that is written
    after construction, so they are plain values.  A [ParseError] is an
    object whose [path] array is written to ([array], [object], [record]
    and [tuple] call [err.path.unshift]), so the parsers run in a
    state-and-exception monad over a heap of [ParseError]s, and a [Result]
    holds its error by reference. *)

From Stdlib Require Import ZArith Bool Ascii String List Lia.
From stdpp Require Import base option list strings pretty.

Import ListNotations.
Local Open Scope string_scope.
Local Open Scope list_scope.

(** ** Calls that may throw *)

(** What a [throw] carries: an [Error] built by [raise], or the [TypeError]
    of a failed built-in conversion. *)
Inductive JsError : Type :=
| Error (message : string)
| TypeError (message : string).

Inductive Outcome (A : Type) : Type :=
| Returns (a : A)
| Throws (e : JsError).

Arguments Returns {A} a.
Arguments Throws {A} e.

Definition obind {A B} (m : Outcome A) (k : A -> Outcome B) : Outcome B :=
  match m with
  | Returns a => k a
  | Throws e => Throws e
  end.

Declare Scope outcome_scope.
Delimit Scope outcome_scope with outcome.
Notation "'let!' x ':=' m 'in' k" := (obind m (fun x => k))
  (at level 10, x name, m at level 100, k at level 200) : outcome_scope.

(** [src/util.ts]: [raise] wraps a string into [new Error] and throws. *)
Definition raise {A} (err : string + JsError) : Outcome A :=
  match err with
  | inl msg => Throws (Error msg)
  | inr e => Throws e
  end.

Definition identity {T} (value : T) : T := value.

(** ** Result<T, E>: a two-variant sum *)

Inductive Result (T E : Type) : Type :=
| Ok (value : T)
| Err (error : E).

Arguments Ok {T E} value.
Arguments Err {T E} error.

(** [Option<T>] is Rocq's [option T]: [Some value] and the shared [None]. *)

(** ** [src/option.ts]: the class [Option] *)
Module OptionClass.
Section Methods.
Context {T : Type}.

Definition match_ {O} (this : option T) (onSome : T -> O) (onNone : unit -> O) : O :=
  match this with
  | Some value => onSome value
  | None => onNone tt
  end.

Definition isSome (this : option T) : bool :=
  match this with Some _ => true | None => false end.

Definition isSomeAnd (this : option T) (f : T -> bool) : bool :=
  match_ this f (fun _ => false).

Definition isNone (this : option T) : bool := negb (isSome this).

Definition expect (this : option T) (msg : string) : Outcome T :=
  match_ this (fun v => Returns (identity v)) (fun _ => raise (inl msg)).

Definition unwrap (this : option T) : Outcome T :=
  match_ this (fun v => Returns (identity v))
    (fun _ => raise (inl "called Option.unwrap on a `None` value")).

Definition unwrapOr (this : option T) (defaultValue : T) : T :=
  match_ this identity (fun _ => defaultValue).

Definition unwrapOrElse (this : option T) (f : unit -> T) : T :=
  match_ this identity f.

Definition map {U} (this : option T) (f : T -> U) : option U :=
  match_ this (fun value => Some (f value)) (fun _ => None).

Definition okOr {E} (this : option T) (err : E) : Result T E :=
  match_ this (fun value => Ok value) (fun _ => Err err).

Definition and {U} (this : option T) (optb : option U) : option U :=
  match_ this (fun _ => optb) (fun _ => None).

Definition andThen {U} (this : option T) (f : T -> option U) : option U :=
  match_ this f (fun _ => None).

(** [filter]: inside [if (this.isSome())] the value is unwrapped and,
    when the predicate holds, re-wrapped; every other path falls through
    to [return this]. *)
Definition filter (this : option T) (predicate : T -> bool) : Outcome (option T) :=
  if isSome this then
    (let! value := unwrap this in
     if predicate value then Returns (Some value) else Returns this)%outcome
  else Returns this.

Definition or (this optb : option T) : option T :=
  match_ this (fun _ => this) (fun _ => optb).

Definition orElse (this : option T) (f : unit -> option T) : option T :=
  match_ this (fun _ => this) f.

Definition xor (this optb : option T) : option T :=
  if isSome this && isNone optb then this
  else if isNone this && isSome optb then optb
  else None.
Definition mapOr {U} (this : option T) (defaultValue : U) (f : T -> U) : U :=
  match_ this f (fun _ => defaultValue).

Definition mapOrElse {U} (this : option T) (d : unit -> U) (f : T -> U) : U :=
  match_ this f d.

Definition okOrElse {E} (this : option T) (f : unit -> E) : Result T E :=
  match_ this (fun value => Ok value) (fun _ => Err (f tt)).
End Methods.
End OptionClass.

(** ** The function-style option module ([isSome], [filter], [unwrap], ...) *)
Module OptionFn.
Section Functions.
Context {T : Type}.

Definition isSome (opt : option T) : bool :=
  match opt with Some _ => true | None => false end.

Definition isNone (opt : option T) : bool :=
  match opt with Some _ => false | None => true end.

Definition match_ {O} (opt : option T) (onSome : T -> O) (onNone : unit -> O) : O :=
  match opt with
  | Some value => onSome value
  | None => onNone tt
  end.

Definition expect (opt : option T) (msg : string) : Outcome T :=
  match opt with Some value => Returns value | None => raise (inl msg) end.

Definition filter (opt : option T) (predicate : T -> bool) : option T :=
  match opt with
  | Some value => if predicate value then opt else None
  | None => None
  end.

Definition map {U} (opt : option T) (f : T -> U) : option U :=
  match opt with Some value => Some (f value) | None => None end.

Definition unwrap (opt : option T) : Outcome T :=
  match opt with
  | Some value => Returns value
  | None => raise (inl "called Option.unwrap on a `None` value")
  end.

Definition unwrapOr (opt : option T) (def : T) : T :=
  match opt with Some value => value | None => def end.
Definition and {U} (opt : option T) (optb : option U) : option U :=
  match opt with Some _ => optb | None => None end.

Definition andThen {U} (opt : option T) (f : T -> option U) : option U :=
  match opt with Some value => f value | None => None end.

Definition isSomeAnd (opt : option T) (f : T -> bool) : bool :=
  match opt with Some value => f value | None => false end.

Definition mapOr {U} (opt : option T) (def : U) (f : T -> U) : U :=
  match opt with Some value => f value | None => def end.

Definition mapOrElse {U} (opt : option T) (def : unit -> U) (f : T -> U) : U :=
  match opt with Some value => f value | None => def tt end.

Definition okOr {E} (opt : option T) (e : E) : Result T E :=
  match opt with Some value => Ok value | None => Err e end.

Definition okOrElse {E} (opt : option T) (e : unit -> E) : Result T E :=
  match opt with Some value => Ok value | None => Err (e tt) end.

Definition or (opta optb : option T) : option T :=
  match opta with Some _ => opta | None => optb end.

Definition orElse (opt : option T) (f : unit -> option T) : option T :=
  match opt with Some _ => opt | None => f tt end.

Definition unwrapOrElse (opt : option T) (def : unit -> T) : T :=
  match opt with Some value => value | None => def tt end.
End Functions.
End OptionFn.

(** ** The class [Result] *)
Module ResultClass.
Section Methods.
Context {T E : Type}.

Definition match_ {O} (this : Result T E) (onOk : T -> O) (onErr : E -> O) : O :=
  match this with
  | Ok value => onOk value
  | Err error => onErr error
  end.

Definition isOk (this : Result T E) : bool :=
  match this with Ok _ => true | Err _ => false end.

Definition isErr (this : Result T E) : bool := negb (isOk this).

Definition ok (this : Result T E) : option T :=
  match_ this Some (fun _ => None).

Definition err (this : Result T E) : option E :=
  match_ this (fun _ => None) Some.

Definition map {U} (this : Result T E) (f : T -> U) : Result U E :=
  match_ this (fun value => Ok (f value)) (fun error => Err error).

Definition expect (this : Result T E) (msg : string) : Outcome T :=
  match_ this (fun v => Returns (identity v)) (fun _ => raise (inl msg)).

Definition unwrap (this : Result T E) : Outcome T :=
  match_ this (fun v => Returns (identity v))
    (fun _ => raise (inl "called Result.unwrap on an `Err` value")).

Definition unwrapErr (this : Result T E) : Outcome E :=
  match_ this
    (fun _ => raise (inl "called Result.unwrapErr on an `Ok` value"))
    (fun e => Returns (identity e)).

Definition andThen {U} (this : Result T E) (f : T -> Result U E) : Result U E :=
  match_ this f (fun error => Err error).

Definition unwrapOr (this : Result T E) (defaultValue : T) : T :=
  match_ this identity (fun _ => defaultValue).
Definition isOkAnd (this : Result T E) (f : T -> bool) : bool :=
  match_ this f (fun _ => false).

Definition isErrAnd (this : Result T E) (f : E -> bool) : bool :=
  match_ this (fun _ => false) f.

Definition mapOr {U} (this : Result T E) (defaultValue : U) (f : T -> U) : U :=
  match_ this f (fun _ => defaultValue).

Definition mapOrElse {U} (this : Result T E) (d : E -> U) (f : T -> U) : U :=
  match_ this f d.

Definition mapErr {F} (this : Result T E) (f : E -> F) : Result T F :=
  match_ this (fun value => Ok value) (fun error => Err (f error)).

Definition expectErr (this : Result T E) (msg : string) : Outcome E :=
  match_ this (fun _ => raise (inl msg)) (fun e => Returns (identity e)).

Definition and {U} (this : Result T E) (res : Result U E) : Result U E :=
  match_ this (fun _ => res) (fun error => Err error).

Definition or {F} (this : Result T E) (res : Result T F) : Result T F :=
  match_ this (fun value => Ok value) (fun _ => res).

Definition orElse {F} (this : Result T E) (f : E -> Result T F) : Result T F :=
  match_ this (fun value => Ok value) f.

Definition unwrapOrElse (this : Result T E) (f : E -> T) : T :=
  match_ this identity f.
End Methods.
End ResultClass.

(** ** [src/result.ts]: the function-style result module *)
Module ResultFn.
Section Functions.
Context {T E : Type}.

Definition isOk (result : Result T E) : bool :=
  match result with Ok _ => true | Err _ => false end.

Definition isErr (result : Result T E) : bool :=
  match result with Ok _ => false | Err _ => true end.

Definition match_ {O} (result : Result T E) (onOk : T -> O) (onErr : E -> O) : O :=
  match result with
  | Ok value => onOk value
  | Err error => onErr error
  end.

Definition unwrap (res : Result T E) : Outcome T :=
  match res with
  | Err _ => raise (inl "called unwrap on an `Err` value")
  | Ok value => Returns value
  end.

Definition unwrapErr (res : Result T E) : Outcome E :=
  match res with
  | Ok _ => raise (inl "called unwrapErr on an `Ok` value")
  | Err error => Returns error
  end.

Definition unwrapOr (res : Result T E) (def : T) : T :=
  match res with Ok value => value | Err _ => def end.

Definition ok (res : Result T E) : option T :=
  match res with Ok value => Some value | Err _ => None end.
Definition isOkAnd (result : Result T E) (f : T -> bool) : bool :=
  isOk result && match result with Ok value => f value | Err _ => false end.

Definition isErrAnd (result : Result T E) (f : E -> bool) : bool :=
  isErr result && match result with Err error => f error | Ok _ => false end.

Definition and {U} (r1 : Result T E) (r2 : Result U E) : Result U E :=
  match r1 with Ok _ => r2 | Err error => Err error end.

Definition andThen {U} (res : Result T E) (f : T -> Result U E) : Result U E :=
  match res with Ok value => f value | Err error => Err error end.

Definition expect (res : Result T E) (msg : string) : Outcome T :=
  match res with Ok value => Returns value | Err _ => raise (inl msg) end.

Definition expectErr (res : Result T E) (msg : string) : Outcome E :=
  match res with Err error => Returns error | Ok _ => raise (inl msg) end.

Definition map {U} (res : Result T E) (f : T -> U) : Result U E :=
  match res with Ok value => Ok (f value) | Err error => Err error end.

Definition mapErr {F} (res : Result T E) (f : E -> F) : Result T F :=
  match res with Err error => Err (f error) | Ok value => Ok value end.

Definition mapOr {U} (res : Result T E) (def : U) (f : T -> U) : U :=
  match res with Ok value => f value | Err _ => def end.

Definition mapOrElse {U} (res : Result T E) (def : E -> U) (f : T -> U) : U :=
  match res with Ok value => f value | Err error => def error end.

Definition or {F} (r1 : Result T E) (r2 : Result T F) : Result T F :=
  match r1 with Ok value => Ok value | Err _ => r2 end.

Definition orElse {F} (res : Result T E) (f : E -> Result T F) : Result T F :=
  match res with Ok value => Ok value | Err error => f error end.

Definition unwrapOrElse (res : Result T E) (f : E -> T) : T :=
  match res with Ok value => value | Err error => f error end.
End Functions.
End ResultFn.

(** [Result.from] of the class and [into] of [src/result.ts]: the call
    [try { return Ok(f()) } catch (err) { return Err(err) }]. *)
Module ResultConv.

Definition from {T} (f : unit -> Outcome T) : Result T JsError :=
  match f tt with
  | Returns value => Ok value
  | Throws err => Err err
  end.

Definition into {T} (fn : unit -> Outcome T) : Result T JsError :=
  match fn tt with
  | Returns value => Ok value
  | Throws err => Err err
  end.

End ResultConv.

(** ** JavaScript values

    The parsers take [unknown] input.  The model's values are the
    primitives, arrays, plain objects (with [Object.prototype] or with no
    prototype) and instances of other classes.  Function values are not
    modelled, so a property of a plain object never holds a callable and
    properties inherited from [Object.prototype] are not visible through
    [get]. *)

(** Numbers: [NaN], the infinities, and the integral finite values (array
    indices, timestamps, the numbers of the tests).  Fractions and [-0]
    are outside the model.  A number is a float64: [Finite z] stands for
    a number of the program when [z] is an integer a float64 holds, as
    every integer from [-2^53] to [2^53] is ([exact_integer] below), and
    sums in [Z] are the sums of the program as long as they stay there. *)
Inductive JsNumber : Type :=
| NaN
| PosInfinity
| NegInfinity
| Finite (z : Z).



(** The classes [getTypeOf] tells apart with [instanceof]; [COther] is any
    other class (for instance [Option] or [List]). *)
Inductive Class : Type :=
| CDate | CError | CMap | CPromise | CRegExp | CSet | CWeakMap | CWeakSet
| CInt8Array | CInt16Array | CInt32Array | CUint8Array | CUint16Array
| CUint32Array | CUint8ClampedArray | COther.

(** What [Object.getPrototypeOf] of a plain object is. *)
Inductive PlainProto : Type :=
| ObjectPrototype
| NullPrototype.

#[warnings="-register-all"] Inductive JsValue : Type :=
| VUndefined
| VNull
| VBoolean (b : bool)
| VNumber (n : JsNumber)
| VString (s : string)
| VBigInt (z : Z)
| VSymbol (description : option string)
| VArray (items : list JsValue)
    (* dense: a hole reads as [undefined], like [VUndefined] *)
| VObject (proto : PlainProto) (props : list (string * JsValue))
    (* own enumerable string-keyed properties, in [for ... in] order *)
| VInstance (cls : Class) (text : string) (num : JsNumber).
    (* an instance of a class, with what [String(x)] and [Number(x)]
       yield for it *)

#[global] Instance Class_eq_dec : EqDecision Class.
Proof. solve_decision. Defined.

Inductive TypeOf : Type :=
| TBigint | TBoolean | TFunction | TNumber | TObject | TString | TSymbol
| TUndefined.

#[global] Instance TypeOf_eq_dec : EqDecision TypeOf.
Proof. solve_decision. Defined.

(** The [typeof] operator. *)
Definition typeof_ (v : JsValue) : TypeOf :=
  match v with
  | VUndefined => TUndefined
  | VNull => TObject
  | VBoolean _ => TBoolean
  | VNumber _ => TNumber
  | VString _ => TString
  | VBigInt _ => TBigint
  | VSymbol _ => TSymbol
  | VArray _ | VObject _ _ | VInstance _ _ _ => TObject
  end.

Inductive Prototype : Type :=
| ProtoNull
| ProtoObject
| ProtoArray
| ProtoClass (c : Class)
| ProtoWrapper.  (* [Number.prototype] and the like, for primitives *)

(** [Object.getPrototypeOf]; the guards call it on objects only. *)
Definition getPrototypeOf (v : JsValue) : Prototype :=
  match v with
  | VObject NullPrototype _ => ProtoNull
  | VObject ObjectPrototype _ => ProtoObject
  | VArray _ => ProtoArray
  | VInstance c _ _ => ProtoClass c
  | _ => ProtoWrapper
  end.

(** [value instanceof C] for the built-in classes (no subclassing). *)
Definition instanceof (value : JsValue) (c : Class) : bool :=
  match value with
  | VInstance c' _ _ => bool_decide (c' = c)
  | _ => false
  end.

(** ** [src/guards.ts] *)

Definition type (k : TypeOf) (input : JsValue) : bool :=
  bool_decide (typeof_ input = k).

Definition isString := type TString.
Definition isNumber := type TNumber.
Definition isBoolean := type TBoolean.
Definition isBigInt := type TBigint.
Definition isSymbol := type TSymbol.
Definition isFunction := type TFunction.
Definition isUndefined := type TUndefined.
Definition isObject := type TObject.

Definition isNull (value : JsValue) : bool :=
  match value with VNull => true | _ => false end.

Definition isNil (value : JsValue) : bool := isNull value || isUndefined value.

Definition isArray (value : JsValue) : bool :=
  match value with VArray _ => true | _ => false end.

Definition isPlainObject (value : JsValue) : bool :=
  if isObject value && negb (isNull value) then
    let proto := getPrototypeOf value in
    match proto with
    | ProtoNull | ProtoObject => true
    | _ => false
    end
  else false.

(** [Number.isFinite] and the global [isNaN], on a number. *)
Definition Number_isFinite (n : JsNumber) : bool :=
  match n with Finite _ => true | _ => false end.

Definition isNaN (n : JsNumber) : bool :=
  match n with NaN => true | _ => false end.

Definition isValidNumber (value : JsValue) : bool :=
  isNumber value &&
  match value with VNumber n => Number_isFinite n | _ => false end.

(** ** [src/guards.ts]: presence and the sign of a number *)

Definition isPresent (value : JsValue) : bool := negb (isNil value).

(** [num > 0]. *)
Definition isPositive (num : JsNumber) : bool :=
  match num with
  | PosInfinity => true
  | Finite z => (0 <? z)%Z
  | NaN | NegInfinity => false
  end.

Definition isNegative (num : JsNumber) : bool := negb (isPositive num).

(** ** [src/util.ts]: the [Type] enum and [getTypeOf]

    A TypeScript string enum member is its string at run time. *)
Module Type_.
Definition Array : string := "array".
Definition BigInt : string := "bigint".
Definition Boolean : string := "boolean".
Definition Date : string := "date".
Definition Error : string := "error".
Definition Function : string := "function".
Definition Infinity : string := "infinity".
Definition Int16Array : string := "int16array".
Definition Int32Array : string := "int32array".
Definition Int8Array : string := "int8array".
Definition Map : string := "map".
Definition NaN : string := "nan".
Definition Null : string := "null".
Definition Number : string := "number".
Definition Object : string := "object".
Definition Promise : string := "promise".
Definition RegExp : string := "regexp".
Definition Set_ : string := "set".
Definition String : string := "string".
Definition Symbol : string := "symbol".
Definition Uint16Array : string := "uint16array".
Definition Uint32Array : string := "uint32array".
Definition Uint8Array : string := "uint8array".
Definition Uint8ClampedArray : string := "uint8clampedarray".
Definition Undefined : string := "undefined".
Definition WeakMap : string := "weakmap".
Definition WeakSet : string := "weakset".
End Type_.

Definition getTypeOf (value : JsValue) : string :=
  if isNull value then Type_.Null
  else
    match typeof_ value, value with
    | TBigint, _ => Type_.BigInt
    | TBoolean, _ => Type_.Boolean
    | TFunction, _ => Type_.Function
    | TNumber, VNumber n =>
        if isNaN n then Type_.NaN
        else if negb (Number_isFinite n) then Type_.Infinity
        else Type_.Number
    | TString, _ => Type_.String
    | TSymbol, _ => Type_.Symbol
    | TUndefined, _ => Type_.Undefined
    | _, _ =>
        if isArray value then Type_.Array
        else if instanceof value CDate then Type_.Date
        else if instanceof value CError then Type_.Error
        else if instanceof value CMap then Type_.Map
        else if instanceof value CPromise then Type_.Promise
        else if instanceof value CRegExp then Type_.RegExp
        else if instanceof value CSet then Type_.Set_
        else if instanceof value CWeakMap then Type_.WeakMap
        else if instanceof value CWeakSet then Type_.WeakSet
        else if instanceof value CInt8Array then Type_.Int8Array
        else if instanceof value CInt16Array then Type_.Int16Array
        else if instanceof value CInt32Array then Type_.Int32Array
        else if instanceof value CUint8Array then Type_.Uint8Array
        else if instanceof value CUint16Array then Type_.Uint16Array
        else if instanceof value CUint32Array then Type_.Uint32Array
        else if instanceof value CUint8ClampedArray then Type_.Uint8ClampedArray
        else Type_.Object
    end.

(** ** Built-in conversions: [String(x)], [Number(x)], [i.toString()] *)

(** [Number.prototype.toString] (radix 10) of an [exact_integer]: its
    decimal digits.  Beyond that range the program prints the shortest
    digits that identify the float64, and from [1e21] on it uses the
    exponent form; neither is modelled, so [Number_toString] stands for
    the program's conversion on exact integers only. *)
Definition Number_toString (n : JsNumber) : string :=
  match n with
  | NaN => "NaN"
  | PosInfinity => "Infinity"
  | NegInfinity => "-Infinity"
  | Finite z => pretty z
  end.

Definition object_to_primitive_error : JsError :=
  TypeError "Cannot convert object to primitive value".

Definition has_own_property (props : list (string * JsValue)) (key : string) : bool :=
  existsb (fun kv => String.eqb (fst kv) key) props.

(** The abstract operation ToString.  An array goes through
    [Array.prototype.join]; a plain object through
    [Object.prototype.toString], which it reaches only when it inherits
    from [Object.prototype] and no own [toString] property hides it (an own
    property is never callable here). *)
Fixpoint ToString (v : JsValue) : Outcome string :=
  match v with
  | VUndefined => Returns "undefined"
  | VNull => Returns "null"
  | VBoolean b => Returns (if b then "true" else "false")
  | VNumber n => Returns (Number_toString n)
  | VString s => Returns s
  | VBigInt z => Returns (pretty z)
  | VSymbol _ => Throws (TypeError "Cannot convert a Symbol value to a string")
  | VArray items =>
      (fix join (l : list JsValue) : Outcome string :=
         match l with
         | [] => Returns ""
         | x :: rest =>
             (let! s := match x with
                        | VUndefined | VNull => Returns ""
                        | _ => ToString x
                        end in
              match rest with
              | [] => Returns s
              | _ => let! t := join rest in Returns (s +:+ "," +:+ t)
              end)%outcome
         end) items
  | VObject ObjectPrototype props =>
      if has_own_property props "toString" then Throws object_to_primitive_error
      else Returns "[object Object]"
  | VObject NullPrototype _ => Throws object_to_primitive_error
  | VInstance _ text _ => Returns text
  end.

(** [String(value)]: a symbol yields its descriptive string, everything
    else goes through ToString. *)
Definition String_ (value : JsValue) : Outcome string :=
  match value with
  | VSymbol description => Returns ("Symbol(" +:+ default "" description +:+ ")")
  | _ => ToString value
  end.

(** StringToNumber for the numbers of the model: surrounding white space
    is dropped; the empty string is [0]; an optionally signed [Infinity]
    or run of decimal digits is that number (exactly so when it is an
    [exact_integer]; the program rounds a longer one to a float64).  Any
    other text is mapped to [NaN]: that is what the program does for text
    that is no numeric literal, but not for a literal with a fraction, an
    exponent or a radix prefix ([0x], [0o], [0b]), which the program
    parses and this function does not.  [StringToNumber] stands for the
    program's conversion on the former texts only. *)
Definition is_white_space (c : ascii) : bool :=
  let n := nat_of_ascii c in
  (n =? 32)%nat || ((9 <=? n)%nat && (n <=? 13)%nat).

Fixpoint trim_start (s : string) : string :=
  match s with
  | String c rest => if is_white_space c then trim_start rest else s
  | EmptyString => EmptyString
  end.

Definition trim (s : string) : string :=
  String.rev (trim_start (String.rev (trim_start s))).

Definition digit_of (c : ascii) : option Z :=
  let n := nat_of_ascii c in
  if (48 <=? n)%nat && (n <=? 57)%nat then Some (Z.of_nat (n - 48)) else None.

Fixpoint parse_digits (s : string) (acc : Z) : option Z :=
  match s with
  | EmptyString => Some acc
  | String c rest =>
      match digit_of c with
      | Some d => parse_digits rest (10 * acc + d)
      | None => None
      end
  end.

Definition parse_unsigned (s : string) : option JsNumber :=
  if String.eqb s "Infinity" then Some PosInfinity
  else
    match s with
    | EmptyString => None
    | _ => Finite <$> parse_digits s 0
    end.

Definition negate (n : JsNumber) : JsNumber :=
  match n with
  | NaN => NaN
  | PosInfinity => NegInfinity
  | NegInfinity => PosInfinity
  | Finite z => Finite (- z)
  end.

Definition StringToNumber (s : string) : JsNumber :=
  match trim s with
  | EmptyString => Finite 0
  | String "+" rest => default NaN (parse_unsigned rest)
  | String "-" rest => default NaN (negate <$> parse_unsigned rest)
  | t => default NaN (parse_unsigned t)
  end.

(** [Number(value)]: a bigint converts (exactly when it is an
    [exact_integer]; the program rounds a larger one to a float64, or to
    an infinity), a symbol throws, an object goes through ToPrimitive,
    which for arrays and plain objects ends in their string form. *)
Definition Number_ (value : JsValue) : Outcome JsNumber :=
  match value with
  | VUndefined => Returns NaN
  | VNull => Returns (Finite 0)
  | VBoolean b => Returns (Finite (if b then 1 else 0))
  | VNumber n => Returns n
  | VString s => Returns (StringToNumber s)
  | VBigInt z => Returns (Finite z)
  | VSymbol _ => Throws (TypeError "Cannot convert a Symbol value to a number")
  | VArray _ | VObject _ _ =>
      (let! s := ToString value in Returns (StringToNumber s))%outcome
  | VInstance _ _ num => Returns num
  end.

(** [i.toString()] of a loop counter. *)
Definition index_toString (i : nat) : string := pretty i.

(** ** Reading and writing properties *)

(** [input.length] and [input[i]] of an array; an index past the end reads
    [undefined]. *)
Definition array_items (input : JsValue) : list JsValue :=
  match input with VArray items => items | _ => [] end.

Definition array_get (input : JsValue) (i : nat) : JsValue :=
  default VUndefined (array_items input !! i).

Definition own_properties (input : JsValue) : list (string * JsValue) :=
  match input with VObject _ props => props | _ => [] end.

Fixpoint lookup_property (props : list (string * JsValue)) (key : string) : option JsValue :=
  match props with
  | [] => None
  | (k, v) :: rest => if String.eqb k key then Some v else lookup_property rest key
  end.

(** [input[key]] of a plain object: the own property, else [undefined].
    The properties of the model are data properties, so no getter runs.
    A read that finds no own property goes on to the prototype: for an
    object that inherits from [Object.prototype] and a key that names one
    of its members the program reads that member (a function, or the
    prototype itself for [__proto__]), which the model has no value for.
    [get] stands for the program's read wherever [reads_prototype] is
    false. *)
Definition get (input : JsValue) (key : string) : JsValue :=
  default VUndefined (lookup_property (own_properties input) key).

(** The names of the members of [Object.prototype]. *)
Definition Object_prototype_keys : list string :=
  ["constructor"; "__defineGetter__"; "__defineSetter__"; "hasOwnProperty";
   "__lookupGetter__"; "__lookupSetter__"; "isPrototypeOf"; "propertyIsEnumerable";
   "toString"; "valueOf"; "__proto__"; "toLocaleString"].

(** [input[key]] finds no own property and reads a member of
    [Object.prototype]. *)
Definition reads_prototype (input : JsValue) (key : string) : bool :=
  match input with
  | VObject ObjectPrototype props =>
      negb (has_own_property props key) && existsb (String.eqb key) Object_prototype_keys
  | _ => false
  end.

(** The keys [for (const key in input)] visits. *)
Definition for_in_keys (input : JsValue) : list string :=
  List.map fst (own_properties input).

(** An array index is the canonical decimal form of an integer below
    [2^32 - 1]; such keys come first, in ascending order, in the property
    order of an object. *)
Definition array_index (key : string) : option Z :=
  match key with
  | EmptyString => None
  | _ =>
      match parse_digits key 0 with
      | Some z => if String.eqb (pretty z) key && (z <? 4294967295)%Z then Some z else None
      | None => None
      end
  end.

(** Does a new property [key] go before the existing property [k]? *)
Definition goes_before (key k : string) : bool :=
  match array_index key, array_index k with
  | Some n, Some m => (n <? m)%Z
  | Some _, None => true
  | None, _ => false
  end.

Fixpoint replace_property (props : list (string * JsValue)) (key : string) (value : JsValue)
  : list (string * JsValue) :=
  match props with
  | [] => []
  | (k, v) :: rest =>
      if String.eqb k key then (k, value) :: rest
      else (k, v) :: replace_property rest key value
  end.

Fixpoint insert_property (props : list (string * JsValue)) (key : string) (value : JsValue)
  : list (string * JsValue) :=
  match props with
  | [] => [(key, value)]
  | (k, v) :: rest =>
      if goes_before key k then (key, value) :: (k, v) :: rest
      else (k, v) :: insert_property rest key value
  end.

(** [obj[key] = value] on an object made by [Object.create(null)]: an
    existing property keeps its place, a new one is created. *)
Definition set_property (props : list (string * JsValue)) (key : string) (value : JsValue)
  : list (string * JsValue) :=
  if has_own_property props key then replace_property props key value
  else insert_property props key value.

(** ToPropertyKey: a symbol stays a symbol ([None] here, the model keeps
    string keys only), anything else is converted to a string. *)
Definition ToPropertyKey (key : JsValue) : Outcome (option string) :=
  match key with
  | VSymbol _ => Returns None
  | _ => (let! s := ToString key in Returns (Some s))%outcome
  end.

Definition assign_property (props : list (string * JsValue)) (key value : JsValue)
  : Outcome (list (string * JsValue)) :=
  (let! k := ToPropertyKey key in
   Returns match k with
           | Some s => set_property props s value
           | None => props
           end)%outcome.

(** ** Conversions between nullable values and options *)
Module OptionConv.

(** [Option.from] of the class [Option]. *)
Definition from (value : JsValue) : option JsValue :=
  if isPresent value then Some value else None.

(** [into] of the function-style option module ([intoOption] in
    [src/array.ts]). *)
Definition into (value : JsValue) : option JsValue :=
  if isNil value then None else Some value.

End OptionConv.

(** ** Built-in array operations

    Arrays are dense lists (a hole reads as [undefined]); an index or a
    count is an integral number, a [Z].  [relative] is the clamping that
    [slice] and [splice] apply to a start or an end. *)
Module JsArray.

Definition relative (len : nat) (i : Z) : nat :=
  if (i <? 0)%Z then Z.to_nat (Z.max (Z.of_nat len + i) 0)
  else Z.to_nat (Z.min i (Z.of_nat len)).

(** [arr.slice(start, end)]; [end] may be left out. *)
Definition slice {A} (arr : list A) (start : Z) (end_ : option Z) : list A :=
  let len := length arr in
  let k := relative len start in
  let final := match end_ with Some e => relative len e | None => len end in
  firstn (final - k) (skipn k arr).

(** [arr.splice(start, deleteCount, ...items)]: the removed elements and
    the array after the call. *)
Definition splice {A} (arr : list A) (start deleteCount : Z) (items : list A)
    : list A * list A :=
  let len := length arr in
  let k := relative len start in
  let d := Nat.min (Z.to_nat (Z.max deleteCount 0)) (len - k) in
  (firstn d (skipn k arr), firstn k arr ++ items ++ skipn (k + d) arr).

(** [arr[i]]: [undefined] off the array. *)
Definition get (arr : list JsValue) (i : Z) : JsValue :=
  if (i <? 0)%Z then VUndefined else default VUndefined (arr !! Z.to_nat i).

(** [arr[i] = v]: past the end the array grows, the gap reading
    [undefined]; a negative [i] names a property that is no element, and
    the elements stay as they are. *)
Definition set (arr : list JsValue) (i : Z) (v : JsValue) : list JsValue :=
  if (i <? 0)%Z then arr
  else
    let n := Z.to_nat i in
    if (n <? length arr)%nat then <[n := v]> arr
    else arr ++ replicate (n - length arr) VUndefined ++ [v].

(** [arr.findIndex(f)] from position [i] on: the index, or [-1]. *)
Fixpoint findIndex_from (f : JsValue -> nat -> bool) (i : nat) (rest : list JsValue) : Z :=
  match rest with
  | [] => (-1)%Z
  | value :: rest' => if f value i then Z.of_nat i else findIndex_from f (S i) rest'
  end.

Definition findIndex (arr : list JsValue) (f : JsValue -> nat -> bool) : Z :=
  findIndex_from f 0 arr.

(** [arr.find(f)]: the element, or [undefined]. *)
Fixpoint find_from (f : JsValue -> nat -> bool) (i : nat) (rest : list JsValue) : JsValue :=
  match rest with
  | [] => VUndefined
  | value :: rest' => if f value i then value else find_from f (S i) rest'
  end.

Definition find (arr : list JsValue) (f : JsValue -> nat -> bool) : JsValue :=
  find_from f 0 arr.

End JsArray.

(** ToBoolean: what counts as true in a condition. *)
Definition ToBoolean (v : JsValue) : bool :=
  match v with
  | VUndefined | VNull => false
  | VBoolean b => b
  | VNumber NaN => false
  | VNumber (Finite z) => negb (z =? 0)%Z
  | VNumber _ => true
  | VString s => negb (String.eqb s "")
  | VBigInt z => negb (z =? 0)%Z
  | VSymbol _ | VArray _ | VObject _ _ | VInstance _ _ _ => true
  end.

(** ** [src/array.ts]: the array functions *)
Module ArrayFn.

Definition getIndex (len index : Z) : Z :=
  if (index <? 0)%Z then (len + index)%Z else index.

Definition length_of (arr : list JsValue) : Z := Z.of_nat (length arr).

Definition append (arr values : list JsValue) : list JsValue := arr ++ values.

Definition compact (arr : list JsValue) : list JsValue := List.filter isPresent arr.

Definition drop (arr : list JsValue) (n : Z) : list JsValue := JsArray.slice arr n None.

Definition first (arr : list JsValue) : option JsValue :=
  OptionConv.into (JsArray.get arr 0).

Definition last (arr : list JsValue) : option JsValue :=
  OptionConv.into (JsArray.get arr (length_of arr - 1)).

Definition prepend (arr values : list JsValue) : list JsValue := values ++ arr.

Definition reverse (arr : list JsValue) : list JsValue := rev arr.

Definition take (arr : list JsValue) (n : Z) : list JsValue :=
  JsArray.slice arr 0 (Some n).

Definition at_ (arr : list JsValue) (index : Z) : option JsValue :=
  OptionConv.into (JsArray.get arr (getIndex (length_of arr) index)).

Definition find (arr : list JsValue) (f : JsValue -> nat -> bool) : option JsValue :=
  OptionConv.into (JsArray.find arr f).

(** [group]: the loop over [arr], with the object built so far; a key is a
    property name. *)
Fixpoint group_loop (f : JsValue -> nat -> string) (i : nat) (rest : list JsValue)
    (obj : list (string * JsValue)) : list (string * JsValue) :=
  match rest with
  | [] => obj
  | item :: rest' =>
      let key := f item i in
      let obj := if negb (has_own_property obj key)
                 then set_property obj key (VArray [])
                 else obj in
      let obj := set_property obj key
                   (VArray (array_items (default VUndefined (lookup_property obj key))
                            ++ [item])) in
      group_loop f (S i) rest' obj
  end.

Definition group (arr : list JsValue) (f : JsValue -> nat -> string) : JsValue :=
  VObject NullPrototype (group_loop f 0 arr []).

Definition insert (arr : list JsValue) (value : JsValue) (at_ : Z) : list JsValue :=
  let at_ := getIndex (length_of arr) at_ in
  let copy := arr in
  snd (JsArray.splice copy at_ 0 [value]).

Definition move (arr : list JsValue) (from to : Z) : list JsValue :=
  let from := getIndex (length_of arr) from in
  let to := getIndex (length_of arr) to in
  let copy := arr in
  let (removed, copy) := JsArray.splice copy from 1 [] in
  let item := JsArray.get removed 0 in
  snd (JsArray.splice copy to 0 [item]).

Definition remove (arr : list JsValue) (at_ : Z) : list JsValue :=
  let at_ := getIndex (length_of arr) at_ in
  let copy := arr in
  snd (JsArray.splice copy at_ 1 []).

Definition swap (arr : list JsValue) (a b : Z) : list JsValue :=
  let a := getIndex (length_of arr) a in
  let b := getIndex (length_of arr) b in
  let copy := arr in
  let temp := JsArray.get copy a in
  let copy := JsArray.set copy a (JsArray.get copy b) in
  JsArray.set copy b temp.

(** [chunk]: the loop [for (let i = 0; i < arr.length; i += size)], run for
    at most [fuel] rounds; [None] when it is cut short. *)
Fixpoint chunk_loop (fuel : nat) (arr : list JsValue) (size i : Z)
    (chunks : list (list JsValue)) : option (list (list JsValue)) :=
  if (i <? length_of arr)%Z then
    match fuel with
    | O => None
    | S fuel' =>
        let chunk := JsArray.slice arr i (Some (i + size)%Z) in
        chunk_loop fuel' arr size (i + size)%Z (chunks ++ [chunk])
    end
  else Some chunks.

(** [chunk]; a round moves [i] on by [size >= 1], so [arr.length] rounds
    are enough, as is proved below. *)
Definition chunk (arr : list JsValue) (size : Z) : option (list (list JsValue)) :=
  if (size <=? 0)%Z then Some [] else chunk_loop (length arr) arr size 0 [].

Fixpoint takeWhile_loop (f : JsValue -> nat -> bool) (i : nat) (rest res : list JsValue)
    : list JsValue :=
  match rest with
  | [] => res
  | value :: rest' =>
      if negb (f value i) then res else takeWhile_loop f (S i) rest' (res ++ [value])
  end.

Definition takeWhile (arr : list JsValue) (f : JsValue -> nat -> bool) : list JsValue :=
  takeWhile_loop f 0 arr [].

Fixpoint dropWhile_loop (f : JsValue -> nat -> bool) (i : nat) (rest : list JsValue)
    (startIndex : Z) : Z :=
  match rest with
  | [] => startIndex
  | value :: rest' =>
      if f value i then dropWhile_loop f (S i) rest' (startIndex + 1)%Z else startIndex
  end.

Definition dropWhile (arr : list JsValue) (f : JsValue -> nat -> bool) : list JsValue :=
  JsArray.slice arr (dropWhile_loop f 0 arr 0) None.

Fixpoint findIndex_loop (f : JsValue -> nat -> bool) (i : nat) (rest : list JsValue)
    : option Z :=
  match rest with
  | [] => None
  | value :: rest' => if f value i then Some (Z.of_nat i) else findIndex_loop f (S i) rest'
  end.

Definition findIndex (arr : list JsValue) (f : JsValue -> nat -> bool) : option Z :=
  findIndex_loop f 0 arr.

End ArrayFn.

(** ** The class [List]

    A method takes the receiver's array [this] (the private field
    [#arr]) and returns the array of the list it builds. *)
Module ListClass.

Definition getIndex (len index : Z) : Z :=
  if (index <? 0)%Z then (len + index)%Z else index.

Definition empty : list JsValue := [].

Definition length_ (this : list JsValue) : Z := Z.of_nat (length this).

Definition isEmpty (this : list JsValue) : bool := (length_ this =? 0)%Z.

(** [List.range]: the loop [for (let i = from; i < to; i += step)], run
    for at most [fuel] rounds; [None] when it is cut short.  The sum
    [i + step] is taken in [Z]; it is the program's float64 sum as long
    as it is an [exact_integer], and past [2^53] the program's sum is
    rounded (and is still at least [2^53]). *)
Fixpoint range_loop (fuel : nat) (i to step : Z) (result : list Z) : option (list Z) :=
  if (i <? to)%Z then
    match fuel with
    | O => None
    | S fuel' => range_loop fuel' (i + step)%Z to step (result ++ [i])
    end
  else Some result.

Definition range (fuel : nat) (from to step : Z) : option (list Z) :=
  range_loop fuel from to step [].

Definition drop (this : list JsValue) (n : Z) : list JsValue :=
  if isNegative (Finite n) then empty else JsArray.slice this n None.

Fixpoint dropWhile_loop (f : JsValue -> nat -> bool) (i : nat) (rest : list JsValue)
    (startIndex : Z) : Z :=
  match rest with
  | [] => startIndex
  | value :: rest' =>
      if f value i then dropWhile_loop f (S i) rest' (startIndex + 1)%Z else startIndex
  end.

Definition dropWhile (this : list JsValue) (f : JsValue -> nat -> bool) : list JsValue :=
  let arr := this in
  drop this (dropWhile_loop f 0 arr 0).

Definition at_ (this : list JsValue) (index : Z) : option JsValue :=
  let arr := this in
  let index := getIndex (length_ arr) index in
  if (index <? 0)%Z || (length_ arr <=? index)%Z then None
  else Some (JsArray.get arr index).

Definition first (this : list JsValue) : option JsValue := at_ this 0.

Definition last (this : list JsValue) : option JsValue := at_ this (length_ this - 1).

(** [reverse]: [this.#arr.reverse()] reverses the receiver's own array,
    and the new list gets a copy of it.  The pair is the new list's array
    and the receiver's array after the call. *)
Definition reverse (this : list JsValue) : list JsValue * list JsValue :=
  let reversed := rev this in
  (reversed, reversed).

Definition take (this : list JsValue) (n : Z) : list JsValue :=
  if isNegative (Finite n) then empty else JsArray.slice this 0 (Some n).

Fixpoint takeWhile_loop (f : JsValue -> nat -> bool) (i : nat) (rest res : list JsValue)
    : list JsValue :=
  match rest with
  | [] => res
  | value :: rest' =>
      if negb (f value i) then res else takeWhile_loop f (S i) rest' (res ++ [value])
  end.

Definition takeWhile (this : list JsValue) (f : JsValue -> nat -> bool) : list JsValue :=
  takeWhile_loop f 0 this [].

Definition find (this : list JsValue) (f : JsValue -> nat -> bool) : option JsValue :=
  let found := JsArray.find this f in
  if ToBoolean found then Some found else None.

Definition findIndex (this : list JsValue) (f : JsValue -> nat -> bool) : option Z :=
  let index := JsArray.findIndex this f in
  if isNegative (Finite index) then None else Some index.

End ListClass.

(** ** The parser module *)
Module P.

(** [class ParseError]: [message] (from [Error]), [expected], [actual],
    [input] and the [path] array, which is empty unless the constructor
    is given one. *)
Record ParseError : Type := mkParseError {
  message : string;
  expected : string;
  actual : string;
  input : JsValue;
  path : list string;
}.

(** A [ParseError] is an object: results hold a reference to it, and the
    heap maps references to the objects made so far. *)
Abbreviation Ref := nat (only parsing).
Abbreviation Heap := (list ParseError) (only parsing).

(** A call runs on a heap, returns or throws, and leaves a heap. *)
Definition M (A : Type) : Type := Heap -> Outcome A * Heap.

Definition ret {A} (a : A) : M A := fun h => (Returns a, h).

Definition bind {A B} (m : M A) (k : A -> M B) : M B :=
  fun h =>
    match m h with
    | (Returns a, h') => k a h'
    | (Throws e, h') => (Throws e, h')
    end.

Definition lift {A} (o : Outcome A) : M A := fun h => (o, h).

Declare Scope M_scope.
Delimit Scope M_scope with M.
Notation "x <- m ;; k" := (bind m (fun x => k))
  (at level 100, m at next level, right associativity) : M_scope.
Notation "m ;;; k" := (bind m (fun _ => k))
  (at level 100, right associativity) : M_scope.
Local Open Scope M_scope.

(** [new ParseError(message, expected, actual, input, path)]. *)
Definition new_ParseError (message expected actual : string) (input : JsValue)
    (path : list string) : M Ref :=
  fun h => (Returns (length h), h ++ [mkParseError message expected actual input path]).

(** [err.path.unshift(segment)]: the array of the object [err] refers to
    is changed in place.  The array is taken to be extensible, as the one
    the constructor makes is; on a frozen array, which only an error made
    outside this module can carry, the program's call throws. *)
Definition unshift (segment : string) (e : ParseError) : ParseError :=
  mkParseError (message e) (expected e) (actual e) (input e) (segment :: path e).

Definition path_unshift (err : Ref) (segment : string) : M unit :=
  fun h => (Returns tt, alter (unshift segment) err h).

(** The result of a parser: [Result<O, ParseError>], the error by
    reference. *)
Abbreviation PResult := (Result JsValue Ref) (only parsing).

(** A parser is a function value: it has a [name] and can be called. *)
Record Parser : Type := mkParser {
  name : string;
  run : JsValue -> M PResult;
}.

(** The arrow function a combinator returns is anonymous. *)
Definition arrow (f : JsValue -> M PResult) : Parser := mkParser "" f.

Definition typeErr (expected : string) (input : JsValue) : M Ref :=
  let actual := getTypeOf input in
  new_ParseError
    ("Type '" +:+ actual +:+ "' is not assignable to type '" +:+ expected +:+ "'")
    expected actual input [].

(** [opts?: { coerce?: boolean }] and the test [if (opts?.coerce)]. *)
Record Opts : Type := mkOpts { coerce : option bool }.

Definition coerce_of (opts : option Opts) : bool :=
  match opts with
  | Some o => default false (coerce o)
  | None => false
  end.

Definition string_ (opts : option Opts) : Parser :=
  arrow (fun input =>
    input <- (if coerce_of opts
              then s <- lift (String_ input) ;; ret (VString s)
              else ret input) ;;
    if isString input then ret (Ok input)
    else e <- typeErr Type_.String input ;; ret (Err e)).

Definition number (opts : option Opts) : Parser :=
  arrow (fun input =>
    input <- (if coerce_of opts
              then n <- lift (Number_ input) ;; ret (VNumber n)
              else ret input) ;;
    if isValidNumber input then ret (Ok input)
    else e <- typeErr Type_.Number input ;; ret (Err e)).

Definition boolean : Parser :=
  arrow (fun input =>
    if isBoolean input then ret (Ok input)
    else e <- typeErr Type_.Boolean input ;; ret (Err e)).

Definition defaulted (parser : Parser) (def : JsValue) : Parser :=
  arrow (fun input => if isNil input then ret (Ok def) else run parser input).

Definition maybe (parser : Parser) : Parser :=
  arrow (fun input => if isNil input then ret (Ok input) else run parser input).

(** [array]: the loop [for (let i = 0; i < arr.length; i++)], with the
    elements still to visit and the slots of [arr] filled so far. *)
Fixpoint array_loop (parser : Parser) (i : nat) (rest arr : list JsValue)
    : M PResult :=
  match rest with
  | [] => ret (Ok (VArray arr))
  | x :: rest' =>
      res <- run parser x ;;
      if ResultClass.isErr res then
        err <- lift (ResultClass.unwrapErr res) ;;
        path_unshift err (index_toString i) ;;;
        ret (Err err)
      else
        v <- lift (ResultClass.unwrap res) ;;
        array_loop parser (S i) rest' (arr ++ [v])
  end.

Definition array (parser : Parser) : Parser :=
  arrow (fun input =>
    if negb (isArray input) then e <- typeErr Type_.Array input ;; ret (Err e)
    else array_loop parser 0 (array_items input) []).

(** [object]: the loop [for (const key in shape)]; the shape is its
    properties in that order. *)
Fixpoint object_loop (shape : list (string * Parser)) (input : JsValue)
    (obj : list (string * JsValue)) : M PResult :=
  match shape with
  | [] => ret (Ok (VObject NullPrototype obj))
  | (key, parser) :: shape' =>
      res <- run parser (get input key) ;;
      if ResultClass.isErr res then
        err <- lift (ResultClass.unwrapErr res) ;;
        path_unshift err key ;;;
        ret (Err err)
      else
        v <- lift (ResultClass.unwrap res) ;;
        object_loop shape' input (set_property obj key v)
  end.

Definition object (shape : list (string * Parser)) : Parser :=
  arrow (fun input =>
    if negb (isPlainObject input) then e <- typeErr Type_.Object input ;; ret (Err e)
    else object_loop shape input []).

(** [record]: the loop [for (const key in input)]. *)
Fixpoint record_loop (keyParser valueParser : Parser) (keys : list string)
    (input : JsValue) (obj : list (string * JsValue)) : M PResult :=
  match keys with
  | [] => ret (Ok (VObject NullPrototype obj))
  | key :: keys' =>
      kres <- run keyParser (VString key) ;;
      if ResultClass.isErr kres then
        err <- lift (ResultClass.unwrapErr kres) ;;
        path_unshift err key ;;;
        ret (Err err)
      else
        vres <- run valueParser (get input key) ;;
        if ResultClass.isErr vres then
          err <- lift (ResultClass.unwrapErr vres) ;;
          path_unshift err key ;;;
          ret (Err err)
        else
          k <- lift (ResultClass.unwrap kres) ;;
          v <- lift (ResultClass.unwrap vres) ;;
          obj' <- lift (assign_property obj k v) ;;
          record_loop keyParser valueParser keys' input obj'
  end.

Definition record (keyParser valueParser : Parser) : Parser :=
  arrow (fun input =>
    if negb (isPlainObject input) then e <- typeErr Type_.Object input ;; ret (Err e)
    else record_loop keyParser valueParser (for_in_keys input) input []).

(** [chain]: [fns.reduce((v, f) => f(v), value)] on success. *)
Definition chain (parser : Parser) (fns : list (JsValue -> JsValue)) : Parser :=
  arrow (fun input =>
    res <- run parser input ;;
    ResultClass.match_ res
      (fun value => ret (Ok (fold_left (fun v f => f v) fns value)))
      (fun error => ret (Err error))).

(** [map]: [parser(input).andThen(f)]; [f] may itself build an error. *)
Definition map (parser : Parser) (f : JsValue -> M PResult) : Parser :=
  arrow (fun input =>
    res <- run parser input ;;
    ResultClass.match_ res f (fun error => ret (Err error))).

(** [literal]: [input === constant] for a constant of type [Literal]. *)
Inductive Literal : Type :=
| LString (s : string)
| LNumber (n : JsNumber)
| LBoolean (b : bool)
| LNull.

Definition Literal_value (constant : Literal) : JsValue :=
  match constant with
  | LString s => VString s
  | LNumber n => VNumber n
  | LBoolean b => VBoolean b
  | LNull => VNull
  end.

Definition number_equal (n m : JsNumber) : bool :=
  match n, m with
  | PosInfinity, PosInfinity | NegInfinity, NegInfinity => true
  | Finite a, Finite b => (a =? b)%Z
  | _, _ => false
  end.

Definition strictly_equals (input : JsValue) (constant : Literal) : bool :=
  match input, constant with
  | VString a, LString b => String.eqb a b
  | VNumber a, LNumber b => number_equal a b
  | VBoolean a, LBoolean b => Bool.eqb a b
  | VNull, LNull => true
  | _, _ => false
  end.

Definition literal (constant : Literal) : Parser :=
  arrow (fun input =>
    if strictly_equals input constant then ret (Ok (Literal_value constant))
    else
      expected <- lift (String_ (Literal_value constant)) ;;
      e <- typeErr expected input ;;
      ret (Err e)).

(** [tuple]: the loop [for (let i = 0; i < parsers.length; i++)]. *)
Fixpoint tuple_loop (parsers : list Parser) (i : nat) (input : JsValue)
    (arr : list JsValue) : M PResult :=
  match parsers with
  | [] => ret (Ok (VArray arr))
  | parser :: parsers' =>
      res <- run parser (array_get input i) ;;
      if ResultClass.isErr res then
        err <- lift (ResultClass.unwrapErr res) ;;
        path_unshift err (index_toString i) ;;;
        ret (Err err)
      else
        v <- lift (ResultClass.unwrap res) ;;
        tuple_loop parsers' (S i) input (arr ++ [v])
  end.

Definition tuple (parsers : list Parser) : Parser :=
  arrow (fun input =>
    if negb (isArray input) then e <- typeErr "array" input ;; ret (Err e)
    else tuple_loop parsers 0 input []).

(** [union]: the loop [for (const parser of parsers)], then the error
    built from every parser's [name]. *)
Fixpoint union_loop (parsers rest : list Parser) (input : JsValue) : M PResult :=
  match rest with
  | [] =>
      e <- typeErr (String.concat " | " (List.map name parsers)) input ;;
      ret (Err e)
  | parser :: rest' =>
      res <- run parser input ;;
      if ResultClass.isOk res then ret res
      else union_loop parsers rest' input
  end.

Definition union (parsers : list Parser) : Parser :=
  arrow (fun input => union_loop parsers parsers input).

(** [export const unknown = (input) => Ok(input)]: named by its binding. *)
Definition unknown : Parser := mkParser "unknown" (fun input => ret (Ok input)).

End P.

(** ** Vocabulary of the statements *)

(** [coerce_on] is the options object [{ coerce: true }]. *)
Definition coerce_on : option P.Opts := Some (P.mkOpts (Some true)).

(** [calls_ok calls h vs h']: the calls [parser(argument)] of [calls], made
    one after the other from heap [h], all return [Ok]; [vs] are the
    values and [h'] is the heap left. *)
Inductive calls_ok : list (P.Parser * JsValue) -> P.Heap -> list JsValue -> P.Heap -> Prop :=
| calls_ok_nil h : calls_ok [] h [] h
| calls_ok_cons parser x calls h v h1 vs h2 :
    P.run parser x h = (Returns (Ok v), h1) ->
    calls_ok calls h1 vs h2 ->
    calls_ok ((parser, x) :: calls) h (v :: vs) h2.

(** The calls [tuple] makes for the parsers from position [i] on. *)
Fixpoint tuple_calls (parsers : list P.Parser) (i : nat) (input : JsValue)
    : list (P.Parser * JsValue) :=
  match parsers with
  | [] => []
  | parser :: parsers' => (parser, array_get input i) :: tuple_calls parsers' (S i) input
  end.

(** The calls [object] makes for a shape. *)
Definition object_calls (shape : list (string * P.Parser)) (input : JsValue)
    : list (P.Parser * JsValue) :=
  List.map (fun kp => (snd kp, get input (fst kp))) shape.

(** [all_err input parsers h rs h']: every parser of [parsers], called on
    [input] in order from heap [h], returns [Err]; [rs] are the errors. *)
Inductive all_err (input : JsValue) : list P.Parser -> P.Heap -> list nat -> P.Heap -> Prop :=
| all_err_nil h : all_err input [] h [] h
| all_err_cons parser parsers h r h1 rs h2 :
    P.run parser input h = (Returns (Err r), h1) ->
    all_err input parsers h1 rs h2 ->
    all_err input (parser :: parsers) h (r :: rs) h2.

(** [entries_ok keyParser valueParser input keys h kvs h']: for each key
    of [keys] in turn, [keyParser(key)] returns [Ok] of a string and
    [valueParser(input[key])] returns [Ok]; [kvs] pairs what the two
    returned. *)
Inductive entries_ok (keyParser valueParser : P.Parser) (input : JsValue)
  : list string -> P.Heap -> list (string * JsValue) -> P.Heap -> Prop :=
| entries_ok_nil h : entries_ok keyParser valueParser input [] h [] h
| entries_ok_cons key keys h k h1 v h2 kvs h3 :
    P.run keyParser (VString key) h = (Returns (Ok (VString k)), h1) ->
    P.run valueParser (get input key) h1 = (Returns (Ok v), h2) ->
    entries_ok keyParser valueParser input keys h2 kvs h3 ->
    entries_ok keyParser valueParser input (key :: keys) h ((k, v) :: kvs) h3.

(** The object [record] builds from the pairs, in order. *)
Definition assign_all (kvs : list (string * JsValue)) (obj : list (string * JsValue))
    : list (string * JsValue) :=
  fold_left (fun o kv => set_property o (fst kv) (snd kv)) kvs obj.


(** [e'] is [e] with locators put in front of its path. *)
Definition extends (e e' : P.ParseError) : Prop :=
  P.message e' = P.message e /\ P.expected e' = P.expected e /\
  P.actual e' = P.actual e /\ P.input e' = P.input e /\
  P.path e `suffix_of` P.path e'.

(** Every object of [h] is still in [h'], changed at most in that way. *)
Definition heap_extends (h h' : P.Heap) : Prop :=
  forall r e, h !! r = Some e -> exists e', h' !! r = Some e' /\ extends e e'.

Definition M_safe {A} (m : P.M A) : Prop :=
  forall h, heap_extends h (snd (m h)).

Definition frame_safe (parser : P.Parser) : Prop :=
  forall input, M_safe (P.run parser input).

(** The transform [(s) => s.trim()] of a [chain]. *)
Definition trim_value (v : JsValue) : JsValue :=
  match v with
  | VString s => VString (trim s)
  | _ => v
  end.

(** Hints for [M_safe] goals are collected in [frame]. *)
Create HintDb frame.

Ltac frame := cbn -[isPlainObject]; eauto 20 with frame.

(** [m] returns, on every heap: it does not throw. *)
Definition M_returns {A} (m : P.M A) : Prop :=
  forall h, exists a h', m h = (Returns a, h').

Definition never_throws (parser : P.Parser) : Prop :=
  forall input, M_returns (P.run parser input).

(** What the parser returns in [Ok] is a string ([K extends string]). *)
Definition returns_string_keys (parser : P.Parser) : Prop :=
  forall input h v h',
    P.run parser input h = (Returns (Ok v), h') -> exists s, v = VString s.

(** Hints for [M_returns] goals are collected in [returns]. *)
Create HintDb returns.

Ltac returns := cbn -[isPlainObject]; eauto 20 with returns.

(** ** Vocabulary of the array and parser laws *)

(** The element an index names: counted from the end when the index is
    negative, none when it falls off the array. *)
Definition element_at (arr : list JsValue) (index : Z) : option JsValue :=
  if (index <? 0)%Z then
    if (index <? - Z.of_nat (length arr))%Z then None
    else arr !! Z.to_nat (Z.of_nat (length arr) + index)
  else arr !! Z.to_nat index.

(** Case analysis on the integer comparisons of a goal. *)
Ltac zcases :=
  repeat match goal with
    | |- context [(?a <? ?b)%Z] => destruct (Z.ltb_spec a b)
    | |- context [(?a <=? ?b)%Z] => destruct (Z.leb_spec a b)
    end.

(** The elements of [rest] (standing at positions [i], [i + 1], ...) to
    which [f] gives the key [k], in their order. *)
Fixpoint members (f : JsValue -> nat -> string) (k : string) (i : nat)
    (rest : list JsValue) : list JsValue :=
  match rest with
  | [] => []
  | item :: rest' =>
      if String.eqb (f item i) k then item :: members f k (S i) rest'
      else members f k (S i) rest'
  end.

(** [rejects parser input expected]: on every heap, [parser(input)]
    returns [Err] of a new [ParseError] made by [typeErr(expected, input)]. *)
Definition rejects (parser : P.Parser) (input : JsValue) (expected : string) : Prop :=
  forall h,
    P.run parser input h
    = (Returns (Err (length h)),
       h ++ [P.mkParseError
               ("Type '" +:+ getTypeOf input +:+ "' is not assignable to type '"
                  +:+ expected +:+ "'")
               expected (getTypeOf input) input []]).

(** [accepts parser x v]: some call [parser(x)] returns [Ok(v)]. *)
Definition accepts (parser : P.Parser) (x v : JsValue) : Prop :=
  exists h h', P.run parser x h = (Returns (Ok v), h').

(** [fixes parser v]: every call [parser(v)] returns [Ok(v)]. *)
Definition fixes (parser : P.Parser) (v : JsValue) : Prop :=
  forall h, exists h', P.run parser v h = (Returns (Ok v), h').

(** Parsing what the parser returned gives it back. *)
Definition idempotent (parser : P.Parser) : Prop :=
  forall x v, accepts parser x v -> fixes parser v.

(** * Option and Result *)

Module OptionFacts.

(** The class method [filter] hands back its receiver whatever the
    predicate says. *)
Lemma class_filter_returns_this {T} (o : option T) (p : T -> bool) :
  OptionClass.filter o p = Returns o.
Proof.
  destruct o as [v|]; cbn; [unfold identity; destruct (p v)|]; reflexivity.
Qed.

(** The function [filter] keeps [Some v] exactly when the predicate holds. *)
Lemma fn_filter_spec {T} (o : option T) (p : T -> bool) :
  OptionFn.filter o p =
  match o with
  | Some v => if p v then Some v else None
  | None => None
  end.
Proof. destruct o; reflexivity. Qed.

(** C4, at the input of the test "should return `None` if predicate returns
    false": [Some(69).filter(v => v === 70)].  The function [filter] yields
    [None]; the method [Option.filter] yields [Some(69)], the value the
    predicate rejected. *)
Theorem class_filter_keeps_rejected_value :
  OptionFn.filter (Some 69%Z) (fun v => (v =? 70)%Z) = None /\
  OptionClass.filter (Some 69%Z) (fun v => (v =? 70)%Z) = Returns (Some 69%Z).
Proof. split; reflexivity. Qed.

(** C10: [a.xor(b)] is the one [Some] operand when exactly one of the two
    is [Some], and [None] when both or neither are. *)
Theorem xor_spec {T} (v w : T) :
  OptionClass.xor (Some v) None = Some v /\
  OptionClass.xor None (Some w) = Some w /\
  OptionClass.xor (Some v) (Some w) = None /\
  OptionClass.xor (@None T) None = None.
Proof. repeat split. Qed.

End OptionFacts.

Module ResultFacts.

(** C5, as the claim words it, fails on the function [unwrap] of
    [src/result.ts]: on an [Err] it raises an [Error] whose message is
    "called unwrap on an `Err` value", which is not the message
    "called Result.unwrap on an `Err` value". *)
Lemma fn_unwrap_message_differs :
  ResultFn.unwrap (Err "foo bar" : Result Z string)
    = Throws (Error "called unwrap on an `Err` value") /\
  ResultFn.unwrap (Err "foo bar" : Result Z string)
    <> Throws (Error "called Result.unwrap on an `Err` value").
Proof. split; [reflexivity | discriminate]. Qed.

(** C5, amended: [unwrap] on [None] raises an [Error] (message
    "called Option.unwrap on a `None` value", for the method and for the
    function); on an [Err] the method of the class [Result] raises an
    [Error] with message "called Result.unwrap on an `Err` value" and the
    function of [src/result.ts] one with message
    "called unwrap on an `Err` value"; on [Some v] and on [Ok v] every
    [unwrap] returns [v] and does not raise. *)
Theorem unwrap_spec {T E} (v : T) (e : E) :
  OptionClass.unwrap (@None T) = Throws (Error "called Option.unwrap on a `None` value") /\
  OptionFn.unwrap (@None T) = Throws (Error "called Option.unwrap on a `None` value") /\
  ResultClass.unwrap (Err e : Result T E)
    = Throws (Error "called Result.unwrap on an `Err` value") /\
  ResultFn.unwrap (Err e : Result T E)
    = Throws (Error "called unwrap on an `Err` value") /\
  OptionClass.unwrap (Some v) = Returns v /\
  OptionFn.unwrap (Some v) = Returns v /\
  ResultClass.unwrap (Ok v : Result T E) = Returns v /\
  ResultFn.unwrap (Ok v : Result T E) = Returns v.
Proof. repeat split. Qed.

(** C7: [r.ok()] is [Some] exactly when [r] is [Ok] ([Ok(v).ok()] is
    [Some(v)], [Err(e).ok()] is [None]), and [r.ok().unwrapOr(x)] equals
    [r.unwrapOr(x)]; for the functions of [src/result.ts] with the option
    functions, and for the methods of the two classes. *)
Theorem ok_unwrapOr {T E} (r : Result T E) (x : T) :
  (OptionFn.isSome (ResultFn.ok r) = ResultFn.isOk r /\
   (forall v, ResultFn.ok (Ok v : Result T E) = Some v) /\
   (forall e, ResultFn.ok (Err e : Result T E) = None) /\
   OptionFn.unwrapOr (ResultFn.ok r) x = ResultFn.unwrapOr r x) /\
  (OptionClass.isSome (ResultClass.ok r) = ResultClass.isOk r /\
   (forall v, ResultClass.ok (Ok v : Result T E) = Some v) /\
   (forall e, ResultClass.ok (Err e : Result T E) = None) /\
   OptionClass.unwrapOr (ResultClass.ok r) x = ResultClass.unwrapOr r x).
Proof. destruct r; repeat split. Qed.

End ResultFacts.

(** * The parsers *)

Module ParserFacts.

(** ** Stepping through [bind] *)

Lemma bind_returns {A B} (m : P.M A) (k : A -> P.M B) h a h' :
  m h = (Returns a, h') -> P.bind m k h = k a h'.
Proof. intros Hm. unfold P.bind. rewrite Hm. reflexivity. Qed.

(** ** The loops *)

Lemma array_loop_ok parser items : forall i arr h vs h',
  calls_ok (List.map (pair parser) items) h vs h' ->
  P.array_loop parser i items arr h = (Returns (Ok (VArray (arr ++ vs))), h').
Proof.
  induction items as [|x items IH]; intros i arr h vs h' Hok;
    inversion Hok; subst; simpl P.array_loop.
  - rewrite app_nil_r. reflexivity.
  - erewrite bind_returns by eassumption. cbn -[P.array_loop].
    erewrite IH by eassumption. rewrite <- app_assoc. reflexivity.
Qed.


Lemma tuple_loop_ok parsers input : forall i arr h vs h',
  calls_ok (tuple_calls parsers i input) h vs h' ->
  P.tuple_loop parsers i input arr h = (Returns (Ok (VArray (arr ++ vs))), h').
Proof.
  induction parsers as [|p parsers IH]; intros i arr h vs h' Hok;
    inversion Hok; subst; simpl P.tuple_loop.
  - rewrite app_nil_r. reflexivity.
  - erewrite bind_returns by eassumption. cbn -[P.tuple_loop].
    erewrite IH by eassumption. rewrite <- app_assoc. reflexivity.
Qed.



Lemma object_loop_ok shape input : forall obj h vs h',
  calls_ok (object_calls shape input) h vs h' ->
  exists out, P.object_loop shape input obj h = (Returns (Ok (VObject NullPrototype out)), h').
Proof.
  induction shape as [|[k p] shape IH]; intros obj h vs h' Hok;
    inversion Hok; subst; simpl P.object_loop.
  - eexists. reflexivity.
  - erewrite bind_returns by eassumption. cbn -[P.object_loop]. eauto.
Qed.

Lemma record_loop_ok keyParser valueParser input keys : forall obj h kvs h',
  entries_ok keyParser valueParser input keys h kvs h' ->
  P.record_loop keyParser valueParser keys input obj h
  = (Returns (Ok (VObject NullPrototype (assign_all kvs obj))), h').
Proof.
  induction keys as [|key keys IH]; intros obj h kvs h' Hok;
    inversion Hok; subst; simpl P.record_loop.
  - reflexivity.
  - erewrite bind_returns by eassumption. cbn -[P.record_loop].
    erewrite bind_returns by eassumption. cbn -[P.record_loop].
    erewrite IH by eassumption. reflexivity.
Qed.

Lemma record_loop_key_fail keyParser valueParser input pre :
  forall obj h kvs h1 key post r h2,
  entries_ok keyParser valueParser input pre h kvs h1 ->
  P.run keyParser (VString key) h1 = (Returns (Err r), h2) ->
  P.record_loop keyParser valueParser (pre ++ key :: post) input obj h
  = (Returns (Err r), alter (P.unshift key) r h2).
Proof.
  induction pre as [|k0 pre IH]; intros obj h kvs h1 key post r h2 Hok Hk;
    inversion Hok; subst; simpl P.record_loop.
  - erewrite bind_returns by eassumption. reflexivity.
  - erewrite bind_returns by eassumption. cbn -[P.record_loop].
    erewrite bind_returns by eassumption. cbn -[P.record_loop].
    erewrite IH by eassumption. reflexivity.
Qed.

Lemma record_loop_value_fail keyParser valueParser input pre :
  forall obj h kvs h1 key post k h2 r h3,
  entries_ok keyParser valueParser input pre h kvs h1 ->
  P.run keyParser (VString key) h1 = (Returns (Ok k), h2) ->
  P.run valueParser (get input key) h2 = (Returns (Err r), h3) ->
  P.record_loop keyParser valueParser (pre ++ key :: post) input obj h
  = (Returns (Err r), alter (P.unshift key) r h3).
Proof.
  induction pre as [|k0 pre IH]; intros obj h kvs h1 key post k h2 r h3 Hok Hk Hv;
    inversion Hok; subst; simpl P.record_loop.
  - erewrite bind_returns by eassumption. cbn -[P.record_loop].
    erewrite bind_returns by eassumption. reflexivity.
  - erewrite bind_returns by eassumption. cbn -[P.record_loop].
    erewrite bind_returns by eassumption. cbn -[P.record_loop].
    erewrite IH by eassumption. reflexivity.
Qed.

(** ** Running the combinators *)

Lemma run_array parser items h :
  P.run (P.array parser) (VArray items) h = P.array_loop parser 0 items [] h.
Proof. reflexivity. Qed.

Lemma run_tuple parsers input h :
  isArray input = true ->
  P.run (P.tuple parsers) input h = P.tuple_loop parsers 0 input [] h.
Proof. intros H. cbn. rewrite H. reflexivity. Qed.

Lemma run_object shape input h :
  isPlainObject input = true ->
  P.run (P.object shape) input h = P.object_loop shape input [] h.
Proof. intros H. cbn -[isPlainObject]. rewrite H. reflexivity. Qed.

Lemma run_record keyParser valueParser input h :
  isPlainObject input = true ->
  P.run (P.record keyParser valueParser) input h
  = P.record_loop keyParser valueParser (for_in_keys input) input [] h.
Proof. intros H. cbn -[isPlainObject]. rewrite H. reflexivity. Qed.

(** ** Paths *)


(** ** [union] *)

Lemma union_loop_first_ok parsers input pre : forall h rs h1 parser post v h2,
  all_err input pre h rs h1 ->
  P.run parser input h1 = (Returns (Ok v), h2) ->
  P.union_loop parsers (pre ++ parser :: post) input h = (Returns (Ok v), h2).
Proof.
  induction pre as [|p pre IH]; intros h rs h1 parser post v h2 Herr Hok;
    inversion Herr; subst; simpl P.union_loop.
  - erewrite bind_returns by eassumption. reflexivity.
  - erewrite bind_returns by eassumption. cbn -[P.union_loop]. eauto.
Qed.

Lemma union_loop_all_err parsers input rest : forall h rs h1,
  all_err input rest h rs h1 ->
  P.union_loop parsers rest input h
  = P.bind (P.typeErr (String.concat " | " (List.map P.name parsers)) input)
      (fun e => P.ret (Err e)) h1.
Proof.
  induction rest as [|p rest IH]; intros h rs h1 Herr;
    inversion Herr; subst; simpl P.union_loop.
  - reflexivity.
  - erewrite bind_returns by eassumption. cbn -[P.union_loop P.typeErr]. eauto.
Qed.

(** ** Properties of the object [record] builds *)

Lemma has_own_property_lookup props key :
  has_own_property props key = bool_decide (is_Some (lookup_property props key)).
Proof.
  induction props as [|[k v] props IH]; cbn.
  - reflexivity.
  - destruct (String.eqb k key); cbn; [reflexivity | exact IH].
Qed.

Lemma lookup_replace_property props key value k' :
  has_own_property props key = true ->
  lookup_property (replace_property props key value) k'
  = if String.eqb key k' then Some value else lookup_property props k'.
Proof.
  induction props as [|[k v] props IH]; cbn; [discriminate|].
  destruct (String.eqb k key) eqn:Hk; cbn.
  - apply String.eqb_eq in Hk. subst k. intros _.
    destruct (String.eqb key k'); reflexivity.
  - intros Hown. rewrite (IH Hown).
    destruct (String.eqb k k') eqn:Hk'; [|reflexivity].
    apply String.eqb_eq in Hk'. subst k'. rewrite String.eqb_sym, Hk. reflexivity.
Qed.

Lemma lookup_insert_property props key value k' :
  has_own_property props key = false ->
  lookup_property (insert_property props key value) k'
  = if String.eqb key k' then Some value else lookup_property props k'.
Proof.
  induction props as [|[k v] props IH]; cbn; [reflexivity|].
  destruct (String.eqb k key) eqn:Hk; cbn; [discriminate|]. intros Hown.
  destruct (goes_before key k); cbn; [reflexivity|].
  rewrite (IH Hown).
  destruct (String.eqb k k') eqn:Hk'; [|reflexivity].
  apply String.eqb_eq in Hk'. subst k'. rewrite String.eqb_sym, Hk. reflexivity.
Qed.

Lemma lookup_set_property props key value k' :
  lookup_property (set_property props key value) k'
  = if String.eqb key k' then Some value else lookup_property props k'.
Proof.
  unfold set_property. destruct (has_own_property props key) eqn:Hown.
  - apply lookup_replace_property, Hown.
  - apply lookup_insert_property, Hown.
Qed.

Lemma lookup_property_app props1 props2 key :
  lookup_property (props1 ++ props2) key
  = match lookup_property props1 key with
    | Some v => Some v
    | None => lookup_property props2 key
    end.
Proof.
  induction props1 as [|[k v] props1 IH]; cbn; [reflexivity|].
  destruct (String.eqb k key); [reflexivity | exact IH].
Qed.

Lemma lookup_assign_all kvs : forall obj key,
  lookup_property (assign_all kvs obj) key
  = match lookup_property (rev kvs) key with
    | Some v => Some v
    | None => lookup_property obj key
    end.
Proof.
  induction kvs as [|[k v] kvs IH]; intros obj key; cbn; [reflexivity|].
  change (fold_left _ kvs ?o) with (assign_all kvs o).
  rewrite IH, lookup_property_app, lookup_set_property. cbn.
  destruct (lookup_property (rev kvs) key); [reflexivity|].
  destruct (String.eqb k key); reflexivity.
Qed.

(** ** What a call may do to the errors already made *)

Lemma extends_refl e : extends e e.
Proof. do 4 (split; [reflexivity|]). reflexivity. Qed.

Lemma extends_trans e1 e2 e3 : extends e1 e2 -> extends e2 e3 -> extends e1 e3.
Proof.
  intros (Hm & Hx & Ha & Hi & Hp) (Hm' & Hx' & Ha' & Hi' & Hp').
  do 4 (split; [congruence|]). etransitivity; eassumption.
Qed.

Lemma extends_unshift segment e : extends e (P.unshift segment e).
Proof. do 4 (split; [reflexivity|]). cbn. apply suffix_cons_r. reflexivity. Qed.

Lemma heap_extends_refl h : heap_extends h h.
Proof. intros r e Hr. exists e. split; [assumption | apply extends_refl]. Qed.

Lemma heap_extends_trans h1 h2 h3 :
  heap_extends h1 h2 -> heap_extends h2 h3 -> heap_extends h1 h3.
Proof.
  intros H12 H23 r e Hr.
  destruct (H12 r e Hr) as (e2 & Hr2 & He2).
  destruct (H23 r e2 Hr2) as (e3 & Hr3 & He3).
  exists e3. split; [assumption | eapply extends_trans; eassumption].
Qed.

Lemma heap_extends_alloc (h : P.Heap) e : heap_extends h (h ++ [e]).
Proof.
  intros r e0 Hr. exists e0. split; [|apply extends_refl].
  rewrite lookup_app_l; [assumption | eapply lookup_lt_Some; eassumption].
Qed.

Lemma heap_extends_unshift (h : P.Heap) r segment :
  heap_extends h (alter (P.unshift segment) r h).
Proof.
  intros r' e Hr. destruct (decide (r = r')) as [->|Hne].
  - exists (P.unshift segment e). split; [|apply extends_unshift].
    rewrite list_lookup_alter_eq, Hr. reflexivity.
  - exists e. split; [|apply extends_refl].
    rewrite list_lookup_alter_ne by assumption. assumption.
Qed.

Lemma M_safe_ret {A} (a : A) : M_safe (P.ret a).
Proof. intros h. apply heap_extends_refl. Qed.

Lemma M_safe_lift {A} (o : Outcome A) : M_safe (P.lift o).
Proof. intros h. apply heap_extends_refl. Qed.

Lemma M_safe_bind {A B} (m : P.M A) (k : A -> P.M B) :
  M_safe m -> (forall a, M_safe (k a)) -> M_safe (P.bind m k).
Proof.
  intros Hm Hk h. unfold P.bind. specialize (Hm h).
  destruct (m h) as [[a|e] h1]; cbn in *; [|assumption].
  eapply heap_extends_trans; [eassumption | apply Hk].
Qed.

Lemma M_safe_typeErr expected input : M_safe (P.typeErr expected input).
Proof. intros h. apply heap_extends_alloc. Qed.

Lemma M_safe_path_unshift r segment : M_safe (P.path_unshift r segment).
Proof. intros h. apply heap_extends_unshift. Qed.

Lemma M_safe_if {A} (b : bool) (m1 m2 : P.M A) :
  M_safe m1 -> M_safe m2 -> M_safe (if b then m1 else m2).
Proof. destruct b; auto. Qed.

#[local] Hint Resolve M_safe_ret M_safe_lift M_safe_typeErr M_safe_path_unshift : frame.
#[local] Hint Extern 2 (M_safe (P.bind _ _)) => apply M_safe_bind; [|intro] : frame.
#[local] Hint Extern 2 (M_safe (if _ then _ else _)) => apply M_safe_if : frame.

Lemma string_frame_safe opts : frame_safe (P.string_ opts).
Proof. intros input. frame. Qed.

Lemma number_frame_safe opts : frame_safe (P.number opts).
Proof. intros input. frame. Qed.

Lemma boolean_frame_safe : frame_safe P.boolean.
Proof. intros input. frame. Qed.

Lemma unknown_frame_safe : frame_safe P.unknown.
Proof. intros input. frame. Qed.

Lemma literal_frame_safe constant : frame_safe (P.literal constant).
Proof. intros input. frame. Qed.

Lemma array_loop_safe parser rest :
  frame_safe parser -> forall i arr, M_safe (P.array_loop parser i rest arr).
Proof.
  intros Hp. induction rest as [|x rest IH]; intros i arr; simpl P.array_loop.
  - auto with frame.
  - apply M_safe_bind; [apply Hp|]. intros [v|r]; frame.
Qed.

Lemma tuple_loop_safe parsers input :
  Forall frame_safe parsers -> forall i arr, M_safe (P.tuple_loop parsers i input arr).
Proof.
  induction 1 as [|p parsers Hp _ IH]; intros i arr; simpl P.tuple_loop.
  - auto with frame.
  - apply M_safe_bind; [apply Hp|]. intros [v|r]; frame.
Qed.

Lemma object_loop_safe shape input :
  Forall (fun kp => frame_safe (snd kp)) shape ->
  forall obj, M_safe (P.object_loop shape input obj).
Proof.
  induction 1 as [|[k p] shape Hp _ IH]; intros obj; simpl P.object_loop.
  - auto with frame.
  - apply M_safe_bind; [apply Hp|]. intros [v|r]; frame.
Qed.

Lemma record_loop_safe keyParser valueParser keys input :
  frame_safe keyParser -> frame_safe valueParser ->
  forall obj, M_safe (P.record_loop keyParser valueParser keys input obj).
Proof.
  intros Hk Hv. induction keys as [|key keys IH]; intros obj; simpl P.record_loop.
  - auto with frame.
  - apply M_safe_bind; [apply Hk|]. intros [k|r]; [|frame].
    cbn -[P.record_loop]. apply M_safe_bind; [apply Hv|]. intros [v|r]; frame.
Qed.

Lemma union_loop_safe parsers rest input :
  Forall frame_safe rest -> M_safe (P.union_loop parsers rest input).
Proof.
  induction 1 as [|p rest Hp _ IH]; simpl P.union_loop.
  - frame.
  - apply M_safe_bind; [apply Hp|]. intros [v|r]; frame.
Qed.

Lemma defaulted_frame_safe parser def :
  frame_safe parser -> frame_safe (P.defaulted parser def).
Proof. intros Hp input. cbn. apply M_safe_if; [frame | apply Hp]. Qed.

Lemma maybe_frame_safe parser : frame_safe parser -> frame_safe (P.maybe parser).
Proof. intros Hp input. cbn. apply M_safe_if; [frame | apply Hp]. Qed.

Lemma chain_frame_safe parser fns : frame_safe parser -> frame_safe (P.chain parser fns).
Proof.
  intros Hp input. cbn. apply M_safe_bind; [apply Hp|]. intros [v|r]; frame.
Qed.

Lemma map_frame_safe parser f :
  frame_safe parser -> (forall v, M_safe (f v)) -> frame_safe (P.map parser f).
Proof.
  intros Hp Hf input. cbn. apply M_safe_bind; [apply Hp|].
  intros [v|r]; cbn; [apply Hf | frame].
Qed.

Lemma union_frame_safe parsers : Forall frame_safe parsers -> frame_safe (P.union parsers).
Proof. intros Hp input. apply union_loop_safe, Hp. Qed.

(** ** Calls that cannot throw *)

Lemma M_returns_ret {A} (a : A) : M_returns (P.ret a).
Proof. intros h. eexists _, _. reflexivity. Qed.

Lemma M_returns_lift {A} (a : A) : M_returns (P.lift (Returns a)).
Proof. intros h. eexists _, _. reflexivity. Qed.

Lemma M_returns_bind {A B} (m : P.M A) (k : A -> P.M B) :
  M_returns m ->
  (forall a h h', m h = (Returns a, h') -> M_returns (k a)) ->
  M_returns (P.bind m k).
Proof.
  intros Hm Hk h. destruct (Hm h) as (a & h' & Hrun).
  erewrite bind_returns by eassumption. eapply Hk. eassumption.
Qed.

Lemma M_returns_bind_value {A B} (a : A) (k : A -> P.M B) :
  M_returns (k a) -> M_returns (P.bind (P.lift (Returns a)) k).
Proof. intros Hk h. exact (Hk h). Qed.

Lemma M_returns_typeErr expected input : M_returns (P.typeErr expected input).
Proof. intros h. eexists _, _. reflexivity. Qed.

Lemma M_returns_path_unshift r segment : M_returns (P.path_unshift r segment).
Proof. intros h. eexists _, _. reflexivity. Qed.

Lemma M_returns_if {A} (b : bool) (m1 m2 : P.M A) :
  M_returns m1 -> M_returns m2 -> M_returns (if b then m1 else m2).
Proof. destruct b; auto. Qed.

#[local] Hint Resolve M_returns_ret M_returns_lift M_returns_typeErr
  M_returns_path_unshift : returns.
#[local] Hint Extern 1 (M_returns (P.bind (P.lift (Returns _)) _)) =>
  apply M_returns_bind_value; cbn -[isPlainObject] : returns.
#[local] Hint Extern 2 (M_returns (P.bind _ _)) =>
  apply M_returns_bind; [|intros ? ? ? ?] : returns.
#[local] Hint Extern 2 (M_returns (if _ then _ else _)) => apply M_returns_if : returns.

Lemma array_loop_returns parser rest :
  never_throws parser -> forall i arr, M_returns (P.array_loop parser i rest arr).
Proof.
  intros Hp. induction rest as [|x rest IH]; intros i arr; simpl P.array_loop.
  - auto with returns.
  - apply M_returns_bind; [apply Hp|]. intros [v|r] ? ? _; returns.
Qed.

Lemma tuple_loop_returns parsers input :
  Forall never_throws parsers ->
  forall i arr, M_returns (P.tuple_loop parsers i input arr).
Proof.
  induction 1 as [|p parsers Hp _ IH]; intros i arr; simpl P.tuple_loop.
  - auto with returns.
  - apply M_returns_bind; [apply Hp|]. intros [v|r] ? ? _; returns.
Qed.

Lemma object_loop_returns shape input :
  Forall (fun kp => never_throws (snd kp)) shape ->
  forall obj, M_returns (P.object_loop shape input obj).
Proof.
  induction 1 as [|[k p] shape Hp _ IH]; intros obj; simpl P.object_loop.
  - auto with returns.
  - apply M_returns_bind; [apply Hp|]. intros [v|r] ? ? _; returns.
Qed.

Lemma record_loop_returns keyParser valueParser keys input :
  never_throws keyParser -> returns_string_keys keyParser ->
  never_throws valueParser ->
  forall obj, M_returns (P.record_loop keyParser valueParser keys input obj).
Proof.
  intros Hk Hs Hv. induction keys as [|key keys IH]; intros obj; simpl P.record_loop.
  - auto with returns.
  - apply M_returns_bind; [apply Hk|]. intros [k|r] h h' Hrun; [|returns].
    destruct (Hs _ _ _ _ Hrun) as [s ->].
    cbn -[P.record_loop]. apply M_returns_bind; [apply Hv|].
    intros [v|r] ? ? _; returns.
Qed.

Lemma union_loop_returns parsers rest input :
  Forall never_throws rest -> M_returns (P.union_loop parsers rest input).
Proof.
  induction 1 as [|p rest Hp _ IH]; simpl P.union_loop.
  - returns.
  - apply M_returns_bind; [apply Hp|]. intros [v|r] ? ? _; returns.
Qed.

(** In the model, without coercion no parser throws: the primitive
    parsers return for every input, and a combinator returns whenever the
    parsers it is built from do ([record] converts what [keyParser]
    returned to a property key, which cannot throw for a string).  For
    [array], [tuple], [object] and [record] this is a fact of the model's
    values and errors, whose properties are data properties and whose
    paths are extensible: reading a property and [unshift] cannot throw
    here. *)
Lemma parsers_without_coercion_return :
  (forall opts, P.coerce_of opts = false -> never_throws (P.string_ opts)) /\
  (forall opts, P.coerce_of opts = false -> never_throws (P.number opts)) /\
  never_throws P.boolean /\
  never_throws P.unknown /\
  (forall constant, never_throws (P.literal constant)) /\
  (forall parser, never_throws parser -> never_throws (P.array parser)) /\
  (forall shape, Forall (fun kp => never_throws (snd kp)) shape ->
                 never_throws (P.object shape)) /\
  (forall keyParser valueParser,
      never_throws keyParser -> returns_string_keys keyParser ->
      never_throws valueParser -> never_throws (P.record keyParser valueParser)) /\
  (forall parsers, Forall never_throws parsers -> never_throws (P.tuple parsers)) /\
  (forall parsers, Forall never_throws parsers -> never_throws (P.union parsers)) /\
  (forall parser def, never_throws parser -> never_throws (P.defaulted parser def)) /\
  (forall parser, never_throws parser -> never_throws (P.maybe parser)) /\
  (forall parser fns, never_throws parser -> never_throws (P.chain parser fns)).
Proof.
  repeat split.
  - intros opts Hc input. cbn. rewrite Hc. returns.
  - intros opts Hc input. cbn. rewrite Hc. returns.
  - intros input. returns.
  - intros input. returns.
  - intros [s|n|b|] input; returns.
  - intros parser Hp input. cbn. apply M_returns_if; [returns|].
    apply array_loop_returns, Hp.
  - intros shape Hs input. cbn -[isPlainObject]. apply M_returns_if; [returns|].
    apply object_loop_returns, Hs.
  - intros keyParser valueParser Hk Hs Hv input. cbn -[isPlainObject].
    apply M_returns_if; [returns|]. apply record_loop_returns; assumption.
  - intros parsers Hp input. cbn. apply M_returns_if; [returns|].
    apply tuple_loop_returns, Hp.
  - intros parsers Hp input. apply union_loop_returns, Hp.
  - intros parser def Hp input. cbn. apply M_returns_if; [returns | apply Hp].
  - intros parser Hp input. cbn. apply M_returns_if; [returns | apply Hp].
  - intros parser fns Hp input. cbn. apply M_returns_bind; [apply Hp|].
    intros [v|r] ? ? _; returns.
Qed.

(** X23: the parsers that only test their input never throw.  Without
    coercion [string] and [number] return a [Result] for every input that
    is a primitive, an array, a plain object or an instance of a class,
    as do [boolean], [unknown] and [literal(constant)]: they apply
    [typeof], [===] and [getTypeOf] to the input and read no property of
    it, so what its properties are makes no difference.  (A revoked
    [Proxy], on which [Array.isArray] itself throws, is no value of the
    model.)  [union], [defaulted] and [maybe] return whenever the parsers
    they are given do: they hand the input on, and a result back,
    untouched. *)
Theorem testing_parsers_return :
  (forall opts, P.coerce_of opts = false -> never_throws (P.string_ opts)) /\
  (forall opts, P.coerce_of opts = false -> never_throws (P.number opts)) /\
  never_throws P.boolean /\
  never_throws P.unknown /\
  (forall constant, never_throws (P.literal constant)) /\
  (forall parsers, Forall never_throws parsers -> never_throws (P.union parsers)) /\
  (forall parser def, never_throws parser -> never_throws (P.defaulted parser def)) /\
  (forall parser, never_throws parser -> never_throws (P.maybe parser)).
Proof.
  repeat apply conj.
  - intros opts Hc input. cbn. rewrite Hc. returns.
  - intros opts Hc input. cbn. rewrite Hc. returns.
  - intros input. returns.
  - intros input. returns.
  - intros [s|n|b|] input; returns.
  - intros parsers Hp input. apply union_loop_returns, Hp.
  - intros parser def Hp input. cbn. apply M_returns_if; [returns | apply Hp].
  - intros parser Hp input. cbn. apply M_returns_if; [returns | apply Hp].
Qed.

(** ** The claims about the parsers *)

(** C1, at the failing inputs: [number({ coerce: true })] called on a
    symbol throws the [TypeError] of [Number(input)], and
    [string({ coerce: true })] called on an object without prototype
    throws the [TypeError] of [String(input)]; neither returns a [Result]. *)
Theorem coercing_parsers_throw (h : P.Heap) :
  P.run (P.number coerce_on) (VSymbol None) h
    = (Throws (TypeError "Cannot convert a Symbol value to a number"), h) /\
  P.run (P.string_ coerce_on) (VObject NullPrototype []) h
    = (Throws object_to_primitive_error, h).
Proof. split; reflexivity. Qed.




(** C3, as the claim words it, fails: [number()("x")] returns an error
    whose path is empty; [array(number())(["x"])] makes the same call and
    then changes the path of the error that call returned to [["0"]]; and
    an error a caller already holds (object [0] of the heap) gets a longer
    path each time a parser that returns it again runs under [array]. *)
Lemma returned_error_is_mutated :
  P.run (P.number None) (VString "x") []
  = (Returns (Err 0),
     [P.mkParseError "Type 'string' is not assignable to type 'number'"
        "number" "string" (VString "x") []]) /\
  P.run (P.array (P.number None)) (VArray [VString "x"]) []
  = (Returns (Err 0),
     [P.mkParseError "Type 'string' is not assignable to type 'number'"
        "number" "string" (VString "x") ["0"]]) /\
  P.run (P.array (P.map P.unknown (fun _ => P.ret (Err 0)))) (VArray [VNull])
    [P.mkParseError "Type 'string' is not assignable to type 'number'"
       "number" "string" (VString "x") []]
  = (Returns (Err 0),
     [P.mkParseError "Type 'string' is not assignable to type 'number'"
        "number" "string" (VString "x") ["0"]]).
Proof. repeat split. Qed.

(** C3, amended: no parser changes the [message], [expected], [actual] or
    [input] of a [ParseError] that exists when it is called, and none
    removes one; the [path] of such an error may change, and only by
    locators put in front of it (the old path stays a suffix of the new
    one).  This holds for the primitive parsers and is kept by every
    combinator, [array], [object], [record] and [tuple] included, which
    write to the path of the error their child returned.  ([Option] and
    [Result] values are never written to: they are plain values here.) *)
Theorem path_is_the_only_change :
  (forall opts, frame_safe (P.string_ opts)) /\
  (forall opts, frame_safe (P.number opts)) /\
  frame_safe P.boolean /\
  frame_safe P.unknown /\
  (forall constant, frame_safe (P.literal constant)) /\
  (forall parser, frame_safe parser -> frame_safe (P.array parser)) /\
  (forall shape, Forall (fun kp => frame_safe (snd kp)) shape -> frame_safe (P.object shape)) /\
  (forall keyParser valueParser,
      frame_safe keyParser -> frame_safe valueParser ->
      frame_safe (P.record keyParser valueParser)) /\
  (forall parsers, Forall frame_safe parsers -> frame_safe (P.tuple parsers)) /\
  (forall parsers, Forall frame_safe parsers -> frame_safe (P.union parsers)) /\
  (forall parser def, frame_safe parser -> frame_safe (P.defaulted parser def)) /\
  (forall parser, frame_safe parser -> frame_safe (P.maybe parser)) /\
  (forall parser fns, frame_safe parser -> frame_safe (P.chain parser fns)) /\
  (forall parser f,
      frame_safe parser -> (forall v, M_safe (f v)) -> frame_safe (P.map parser f)).
Proof.
  repeat split.
  - apply string_frame_safe.
  - apply number_frame_safe.
  - apply boolean_frame_safe.
  - apply unknown_frame_safe.
  - apply literal_frame_safe.
  - intros parser Hp input. cbn. apply M_safe_if; [frame|].
    apply array_loop_safe, Hp.
  - intros shape Hs input. cbn -[isPlainObject]. apply M_safe_if; [frame|].
    apply object_loop_safe, Hs.
  - intros keyParser valueParser Hk Hv input. cbn -[isPlainObject].
    apply M_safe_if; [frame|]. apply record_loop_safe; assumption.
  - intros parsers Hp input. cbn. apply M_safe_if; [frame|].
    apply tuple_loop_safe, Hp.
  - apply union_frame_safe.
  - apply defaulted_frame_safe.
  - apply maybe_frame_safe.
  - apply chain_frame_safe.
  - apply map_frame_safe.
Qed.

(** Two parsers built from the vocabulary, through [path_is_the_only_change]. *)
Lemma path_is_the_only_change_witness :
  frame_safe (P.array (P.number None)) /\
  frame_safe (P.object [("a", P.array (P.number None)); ("b", P.string_ None)]).
Proof.
  pose proof path_is_the_only_change
    as (Hstring & Hnumber & _ & _ & _ & Harray & Hobject & _).
  split.
  - apply Harray, Hnumber.
  - apply Hobject. repeat constructor; cbn.
    + apply Harray, Hnumber.
    + apply Hstring.
Defined.

(** C6: [union(parsers)] calls the parsers on the input in the given order
    and returns the first [Ok] result, without calling the parsers after
    it; when every parser returns [Err], it returns one new error whose
    [expected] is the parsers' names joined with [" | "] and whose path is
    empty.  That error is a new object: it is none of the errors the
    parsers returned, it holds nothing of them, and they are left as they
    were. *)
Theorem union_spec (parsers : list P.Parser) (input : JsValue) (h : P.Heap) :
  (forall pre parser post rs h1 v h2,
      parsers = pre ++ parser :: post ->
      all_err input pre h rs h1 ->
      P.run parser input h1 = (Returns (Ok v), h2) ->
      P.run (P.union parsers) input h = (Returns (Ok v), h2)) /\
  (forall rs h1,
      all_err input parsers h rs h1 ->
      P.run (P.union parsers) input h
      = (Returns (Err (length h1)),
         h1 ++ [P.mkParseError
                  ("Type '" +:+ getTypeOf input +:+ "' is not assignable to type '"
                   +:+ String.concat " | " (List.map P.name parsers) +:+ "'")
                  (String.concat " | " (List.map P.name parsers))
                  (getTypeOf input) input []]) /\
      (forall r, In r rs -> is_Some (h1 !! r) -> r <> length h1)).
Proof.
  split.
  - intros pre parser post rs h1 v h2 -> Herr Hok.
    eapply union_loop_first_ok; eassumption.
  - intros rs h1 Herr. split.
    + cbn -[P.typeErr]. erewrite union_loop_all_err by eassumption. reflexivity.
    + intros r _ Hr. apply lookup_lt_is_Some in Hr. lia.
Qed.

(** [union([string(), number()])] on [10], where the second parser
    accepts, and on [true], where both fail. *)
Lemma union_spec_witness :
  P.run (P.union [P.string_ None; P.number None]) (VNumber (Finite 10)) []
  = (Returns (Ok (VNumber (Finite 10))),
     [P.mkParseError "Type 'number' is not assignable to type 'string'"
        "string" "number" (VNumber (Finite 10)) []]) /\
  P.run (P.union [P.string_ None; P.number None]) (VBoolean true) []
  = (Returns (Err 2),
     [P.mkParseError "Type 'boolean' is not assignable to type 'string'"
        "string" "boolean" (VBoolean true) [];
      P.mkParseError "Type 'boolean' is not assignable to type 'number'"
        "number" "boolean" (VBoolean true) [];
      P.mkParseError "Type 'boolean' is not assignable to type ' | '"
        " | " "boolean" (VBoolean true) []]).
Proof.
  split.
  - apply (proj1 (union_spec _ _ _) [P.string_ None] (P.number None) [] [0]
             [P.mkParseError "Type 'number' is not assignable to type 'string'"
                "string" "number" (VNumber (Finite 10)) []]);
      [reflexivity | | reflexivity].
    eapply all_err_cons; [reflexivity | constructor].
  - refine (proj1 (proj2 (union_spec [P.string_ None; P.number None] (VBoolean true) [])
                     [0; 1]
                     [P.mkParseError "Type 'boolean' is not assignable to type 'string'"
                        "string" "boolean" (VBoolean true) [];
                      P.mkParseError "Type 'boolean' is not assignable to type 'number'"
                        "number" "boolean" (VBoolean true) []]
                     _)).
    eapply all_err_cons; [reflexivity|].
    eapply all_err_cons; [reflexivity | constructor].
Defined.

(** C8, at the failing inputs: on an object without prototype
    ([Object.create(null)], whatever data properties it is given) the
    conversion [String(input)] throws a [TypeError]; the code runs it
    before any test and outside any [try], so [string({ coerce: true })]
    throws that error, on every heap, makes no error object, and returns
    neither the [Ok(String(input))] the claim promises nor any other
    [Result]. *)
Theorem string_coerce_throws_without_prototype
    (props : list (string * JsValue)) (h : P.Heap) :
  String_ (VObject NullPrototype props) = Throws object_to_primitive_error /\
  P.run (P.string_ coerce_on) (VObject NullPrototype props) h
    = (Throws object_to_primitive_error, h) /\
  (forall res h', P.run (P.string_ coerce_on) (VObject NullPrototype props) h
                  <> (Returns res, h')).
Proof. repeat split. intros res h'. discriminate. Qed.

(** Where the conversion [String(input)] returns, [string({ coerce:
    true })] returns [Ok] of the string it gave and makes no error
    object: the throw above is all that stands between the code and what
    is claimed of it.  The type test runs on the converted value, so this
    parser has no input on which it returns [Err]. *)
Theorem string_coerce_spec (input : JsValue) (h : P.Heap) :
  (forall s, String_ input = Returns s ->
     P.run (P.string_ coerce_on) input h = (Returns (Ok (VString s)), h)) /\
  (forall r h', P.run (P.string_ coerce_on) input h <> (Returns (Err r), h')).
Proof.
  split.
  - intros s Hs. cbn. unfold P.bind, P.lift. rewrite Hs. reflexivity.
  - intros r h'. cbn. unfold P.bind, P.lift.
    destruct (String_ input); cbn; discriminate.
Qed.

(** The test "should coerce input to a string": [123] gives [Ok("123")]. *)
Lemma string_coerce_spec_witness :
  P.run (P.string_ coerce_on) (VNumber (Finite 123)) []
  = (Returns (Ok (VString "123")), []).
Proof.
  apply (proj1 (string_coerce_spec (VNumber (Finite 123)) []) "123").
  vm_compute. reflexivity.
Defined.

(** C9: when [record(keyParser, valueParser)] succeeds, the object it
    returns is built by assigning, for each input key in turn, the parsed
    value under the key [keyParser] returned: looking a key up in it gives
    the value parsed for the last input key that [keyParser] turned into
    it, and nothing for a key [keyParser] never returned.  When
    [keyParser] or [valueParser] fails at an input key, the returned error
    is the child's, with that raw input key put in front of its path. *)
Theorem record_spec (keyParser valueParser : P.Parser) (input : JsValue) (h : P.Heap) :
  isPlainObject input = true ->
  (forall kvs h',
      entries_ok keyParser valueParser input (for_in_keys input) h kvs h' ->
      P.run (P.record keyParser valueParser) input h
        = (Returns (Ok (VObject NullPrototype (assign_all kvs []))), h') /\
      (forall k, lookup_property (assign_all kvs []) k = lookup_property (rev kvs) k)) /\
  (forall pre key post kvs h1 r h2,
      for_in_keys input = pre ++ key :: post ->
      entries_ok keyParser valueParser input pre h kvs h1 ->
      P.run keyParser (VString key) h1 = (Returns (Err r), h2) ->
      P.run (P.record keyParser valueParser) input h
        = (Returns (Err r), alter (P.unshift key) r h2)) /\
  (forall pre key post kvs h1 k h2 r h3,
      for_in_keys input = pre ++ key :: post ->
      entries_ok keyParser valueParser input pre h kvs h1 ->
      P.run keyParser (VString key) h1 = (Returns (Ok k), h2) ->
      P.run valueParser (get input key) h2 = (Returns (Err r), h3) ->
      P.run (P.record keyParser valueParser) input h
        = (Returns (Err r), alter (P.unshift key) r h3)).
Proof.
  intros Hobj. repeat split.
  - rewrite run_record by assumption. apply record_loop_ok. assumption.
  - intros k. rewrite lookup_assign_all.
    destruct (lookup_property (rev kvs) k); reflexivity.
  - intros pre key post kvs h1 r h2 Hkeys Hok Hk.
    rewrite run_record, Hkeys by assumption.
    eapply record_loop_key_fail; eassumption.
  - intros pre key post kvs h1 k h2 r h3 Hkeys Hok Hk Hv.
    rewrite run_record, Hkeys by assumption.
    eapply record_loop_value_fail; eassumption.
Qed.

(** A key parser that trims: the output is keyed by the trimmed key, and
    the path of a value failure starts with the raw key. *)
Lemma record_spec_witness :
  P.run (P.record (P.chain (P.string_ None) [trim_value]) (P.number None))
    (VObject ObjectPrototype [(" a ", VNumber (Finite 1))]) []
  = (Returns (Ok (VObject NullPrototype [("a", VNumber (Finite 1))])), []) /\
  P.run (P.record (P.chain (P.string_ None) [trim_value]) (P.number None))
    (VObject ObjectPrototype [(" a ", VString "x")]) []
  = (Returns (Err 0),
     [P.mkParseError "Type 'string' is not assignable to type 'number'"
        "number" "string" (VString "x") [" a "]]).
Proof.
  split.
  - refine (proj1 (proj1 (record_spec
                            (P.chain (P.string_ None) [trim_value]) (P.number None)
                            (VObject ObjectPrototype [(" a ", VNumber (Finite 1))]) []
                            eq_refl)
                     [("a", VNumber (Finite 1))] [] _)).
    eapply entries_ok_cons; [reflexivity | reflexivity | constructor].
  - apply (proj2 (proj2 (record_spec
                           (P.chain (P.string_ None) [trim_value]) (P.number None)
                           (VObject ObjectPrototype [(" a ", VString "x")]) []
                           eq_refl))
             [] " a " [] [] [] (VString "a") [] 0
             [P.mkParseError "Type 'string' is not assignable to type 'number'"
                "number" "string" (VString "x") []]);
      [reflexivity | constructor | reflexivity | reflexivity].
Defined.

End ParserFacts.

(** * Option and Result: the two implementations, laws and conversions *)

Module VariantFacts.

(** X1: the class [Option] and the option functions compute the same
    thing for every operation they share, [filter] apart: the tests,
    [match], the unwrapping accessors, [map], [mapOr], [mapOrElse],
    [okOr], [okOrElse], [and], [andThen], [or], [orElse], and the
    constructors [Option.from] and [into]. *)
Theorem option_class_agrees_with_functions {T U E O : Type}
    (o o2 : option T) (ob : option U) (f : T -> U) (g : T -> option U)
    (p : T -> bool) (d : T) (du : U) (e : E) (msg : string)
    (dt : unit -> T) (dU : unit -> U) (de : unit -> E) (h : unit -> option T)
    (onSome : T -> O) (onNone : unit -> O) (value : JsValue) :
  OptionClass.match_ o onSome onNone = OptionFn.match_ o onSome onNone /\
  OptionClass.isSome o = OptionFn.isSome o /\
  OptionClass.isNone o = OptionFn.isNone o /\
  OptionClass.isSomeAnd o p = OptionFn.isSomeAnd o p /\
  OptionClass.expect o msg = OptionFn.expect o msg /\
  OptionClass.unwrap o = OptionFn.unwrap o /\
  OptionClass.unwrapOr o d = OptionFn.unwrapOr o d /\
  OptionClass.unwrapOrElse o dt = OptionFn.unwrapOrElse o dt /\
  OptionClass.map o f = OptionFn.map o f /\
  OptionClass.mapOr o du f = OptionFn.mapOr o du f /\
  OptionClass.mapOrElse o dU f = OptionFn.mapOrElse o dU f /\
  OptionClass.okOr o e = OptionFn.okOr o e /\
  OptionClass.okOrElse o de = OptionFn.okOrElse o de /\
  OptionClass.and o ob = OptionFn.and o ob /\
  OptionClass.andThen o g = OptionFn.andThen o g /\
  OptionClass.or o o2 = OptionFn.or o o2 /\
  OptionClass.orElse o h = OptionFn.orElse o h /\
  OptionConv.from value = OptionConv.into value.
Proof.
  destruct o; repeat split; destruct value; reflexivity.
Qed.

(** X2: the class [Result] and the functions of [src/result.ts] compute
    the same thing for every operation they share, up to the message of
    the error [unwrap] and [unwrapErr] raise: the tests, [match], [ok],
    [map], [mapErr], [mapOr], [mapOrElse], [and], [andThen], [or],
    [orElse], [unwrapOr], [unwrapOrElse], [expect], [expectErr] and the
    constructors [Result.from] and [into]; [unwrap] and [unwrapErr] return
    the same value when they return, and raise on the same results. *)
Theorem result_class_agrees_with_functions {T U E F O : Type}
    (r : Result T E) (ru : Result U E) (rf : Result T F)
    (f : T -> U) (g : T -> Result U E) (k : E -> Result T F) (m : E -> F)
    (p : T -> bool) (q : E -> bool) (d : T) (du : U) (msg : string)
    (dE : E -> T) (dU : E -> U) (onOk : T -> O) (onErr : E -> O)
    (fn : unit -> Outcome T) :
  ResultClass.match_ r onOk onErr = ResultFn.match_ r onOk onErr /\
  ResultClass.isOk r = ResultFn.isOk r /\
  ResultClass.isErr r = ResultFn.isErr r /\
  ResultClass.isOkAnd r p = ResultFn.isOkAnd r p /\
  ResultClass.isErrAnd r q = ResultFn.isErrAnd r q /\
  ResultClass.ok r = ResultFn.ok r /\
  ResultClass.map r f = ResultFn.map r f /\
  ResultClass.mapErr r m = ResultFn.mapErr r m /\
  ResultClass.mapOr r du f = ResultFn.mapOr r du f /\
  ResultClass.mapOrElse r dU f = ResultFn.mapOrElse r dU f /\
  ResultClass.and r ru = ResultFn.and r ru /\
  ResultClass.andThen r g = ResultFn.andThen r g /\
  ResultClass.or r rf = ResultFn.or r rf /\
  ResultClass.orElse r k = ResultFn.orElse r k /\
  ResultClass.unwrapOr r d = ResultFn.unwrapOr r d /\
  ResultClass.unwrapOrElse r dE = ResultFn.unwrapOrElse r dE /\
  ResultClass.expect r msg = ResultFn.expect r msg /\
  ResultClass.expectErr r msg = ResultFn.expectErr r msg /\
  ResultConv.from fn = ResultConv.into fn /\
  (forall v, ResultClass.unwrap r = Returns v <-> ResultFn.unwrap r = Returns v) /\
  (forall e, ResultClass.unwrapErr r = Returns e <-> ResultFn.unwrapErr r = Returns e).
Proof.
  destruct r; repeat split; intros; try reflexivity; try assumption; discriminate.
Qed.

(** X3: [map], [andThen] and [Some] on the class [Option] satisfy the
    functor and monad laws: mapping the identity changes nothing, two maps
    fuse into one, [andThen(Some)] is the identity, [Some(v).andThen(f)]
    is [f(v)], [andThen] is associative, and [map(f)] is
    [andThen(v => Some(f(v)))]. *)
Theorem option_laws {T U V : Type} (o : option T) (v : T)
    (f : T -> U) (g : U -> V) (k : T -> option U) (l : U -> option V) :
  OptionClass.map o (fun x => x) = o /\
  OptionClass.map (OptionClass.map o f) g = OptionClass.map o (fun x => g (f x)) /\
  OptionClass.andThen o Some = o /\
  OptionClass.andThen (Some v) k = k v /\
  OptionClass.andThen (OptionClass.andThen o k) l
    = OptionClass.andThen o (fun x => OptionClass.andThen (k x) l) /\
  OptionClass.map o f = OptionClass.andThen o (fun x => Some (f x)).
Proof. destruct o; repeat split. Qed.

(** X4: on the class [Result], [map] and [andThen] satisfy the same laws
    on the [Ok] channel, [mapErr] fuses on the [Err] channel, [map] and
    [mapErr] do not interfere, and [orElse(Err)] is the identity. *)
Theorem result_laws {T U V E F G : Type} (r : Result T E) (v : T)
    (f : T -> U) (g : U -> V) (k : T -> Result U E) (l : U -> Result V E)
    (m : E -> F) (n : F -> G) :
  ResultClass.map r (fun x => x) = r /\
  ResultClass.map (ResultClass.map r f) g = ResultClass.map r (fun x => g (f x)) /\
  ResultClass.andThen r Ok = r /\
  ResultClass.andThen (Ok v) k = k v /\
  ResultClass.andThen (ResultClass.andThen r k) l
    = ResultClass.andThen r (fun x => ResultClass.andThen (k x) l) /\
  ResultClass.mapErr (ResultClass.mapErr r m) n
    = ResultClass.mapErr r (fun x => n (m x)) /\
  ResultClass.mapErr (ResultClass.map r f) m
    = ResultClass.map (ResultClass.mapErr r m) f /\
  ResultClass.orElse r Err = r.
Proof. destruct r; repeat split. Qed.

(** X5: going from an [Option] to a [Result] and back loses nothing
    ([o.okOr(e).ok()] is [o]); going from a [Result] to an [Option] and
    back keeps an [Ok] and replaces the error of an [Err] by the supplied
    one ([r.ok().okOr(e)] is [r.mapErr(() => e)]); [err()] is [Some]
    exactly when [ok()] is [None]; and the fallback of [unwrapOr] is used
    on the same side in both. *)
Theorem option_result_round_trip {T E F : Type}
    (o : option T) (r : Result T E) (e : E) (e' : F) (d : T) :
  ResultClass.ok (OptionClass.okOr o e) = o /\
  OptionClass.okOr (ResultClass.ok r) e' = ResultClass.mapErr r (fun _ => e') /\
  OptionClass.isSome (ResultClass.err r) = OptionClass.isNone (ResultClass.ok r) /\
  ResultClass.unwrapOr (OptionClass.okOr o e) d = OptionClass.unwrapOr o d.
Proof. destruct o, r; repeat split. Qed.

End VariantFacts.

(** * The array functions and the class [List] *)

Module ArrayFacts.

(** ** [slice], [splice], [arr[i]] *)

Lemma relative_le len i : JsArray.relative len i <= len.
Proof. unfold JsArray.relative. destruct (Z.ltb_spec i 0); lia. Qed.

Lemma slice_from_start {A} (arr : list A) n :
  JsArray.slice arr 0 (Some n) = firstn (JsArray.relative (length arr) n) arr.
Proof.
  unfold JsArray.slice. replace (JsArray.relative (length arr) 0) with 0.
  - rewrite Nat.sub_0_r. reflexivity.
  - unfold JsArray.relative. cbn. lia.
Qed.

Lemma slice_to_end {A} (arr : list A) n :
  JsArray.slice arr n None = skipn (JsArray.relative (length arr) n) arr.
Proof.
  unfold JsArray.slice. apply firstn_all2. rewrite length_skipn. lia.
Qed.

Lemma slice_nat {A} (arr : list A) (o s : nat) :
  JsArray.slice arr (Z.of_nat o) (Some (Z.of_nat o + Z.of_nat s)%Z)
  = firstn s (skipn o arr).
Proof.
  unfold JsArray.slice, JsArray.relative.
  destruct (Z.ltb_spec (Z.of_nat o) 0); [lia|].
  destruct (Z.ltb_spec (Z.of_nat o + Z.of_nat s) 0); [lia|].
  destruct (Nat.le_gt_cases (length arr) o) as [Hge|Hlt].
  - rewrite (skipn_all2 arr) by lia. rewrite skipn_all2 by lia.
    rewrite !firstn_nil. reflexivity.
  - replace (Z.to_nat (Z.min (Z.of_nat o) (Z.of_nat (length arr)))) with o by lia.
    destruct (Nat.le_gt_cases (o + s) (length arr)).
    + f_equal. lia.
    + rewrite !firstn_all2; [reflexivity | rewrite length_skipn; lia
                             | rewrite length_skipn; lia].
Qed.

Lemma get_lookup (arr : list JsValue) (n : nat) :
  JsArray.get arr (Z.of_nat n) = default VUndefined (arr !! n).
Proof.
  unfold JsArray.get. destruct (Z.ltb_spec (Z.of_nat n) 0); [lia|].
  rewrite Nat2Z.id. reflexivity.
Qed.

Lemma get_outside (arr : list JsValue) (i : Z) :
  (i < 0 \/ Z.of_nat (length arr) <= i)%Z -> JsArray.get arr i = VUndefined.
Proof.
  intros Hi. unfold JsArray.get. destruct (Z.ltb_spec i 0); [reflexivity|].
  rewrite lookup_ge_None_2 by lia. reflexivity.
Qed.

(** ** [at], [first], [last] *)

Lemma list_at_element_at (arr : list JsValue) (index : Z) :
  ListClass.at_ arr index = element_at arr index.
Proof.
  assert (Hin : forall i : Z, (0 <= i < Z.of_nat (length arr))%Z ->
             exists x, arr !! Z.to_nat i = Some x /\ JsArray.get arr i = x).
  { intros i Hi. destruct (lookup_lt_is_Some_2 arr (Z.to_nat i)) as [x Hx]; [lia|].
    exists x. split; [assumption|]. unfold JsArray.get.
    destruct (Z.ltb_spec i 0); [lia|]. rewrite Hx. reflexivity. }
  unfold ListClass.at_, ListClass.getIndex, ListClass.length_, element_at.
  zcases; cbn; zcases; cbn; try lia; try reflexivity.
  - destruct (Hin (Z.of_nat (length arr) + index)%Z) as (x & Hx & Hg); [lia|].
    rewrite Hx, Hg. reflexivity.
  - rewrite lookup_ge_None_2 by lia. reflexivity.
  - destruct (Hin index) as (x & Hx & Hg); [lia|].
    rewrite Hx, Hg. reflexivity.
Qed.

(** X6: [List.at(index)] is the element the index names, counting from
    the end for a negative index, and [None] off the list; the function
    [at] of [src/array.ts] is the same followed by the nil test of [into],
    so it is also [None] on an element that is [null] or [undefined];
    [first] and [last] are [at(0)] and [at(-1)]. *)
Theorem at_spec (arr : list JsValue) (index : Z) :
  ListClass.at_ arr index = element_at arr index /\
  ArrayFn.at_ arr index = OptionFn.andThen (element_at arr index) OptionConv.into /\
  ArrayFn.first arr = ArrayFn.at_ arr 0 /\
  ArrayFn.last arr = ArrayFn.at_ arr (-1) /\
  ListClass.first arr = ListClass.at_ arr 0 /\
  ListClass.last arr = ListClass.at_ arr (-1).
Proof.
  assert (Hin : forall i : Z, (0 <= i < Z.of_nat (length arr))%Z ->
             exists x, arr !! Z.to_nat i = Some x /\ JsArray.get arr i = x).
  { intros i Hi. destruct (lookup_lt_is_Some_2 arr (Z.to_nat i)) as [x Hx]; [lia|].
    exists x. split; [assumption|]. unfold JsArray.get.
    destruct (Z.ltb_spec i 0); [lia|]. rewrite Hx. reflexivity. }
  repeat split.
  - apply list_at_element_at.
  - unfold ArrayFn.at_, ArrayFn.getIndex, ArrayFn.length_of, element_at.
    zcases; cbn.
    + rewrite get_outside by lia. reflexivity.
    + destruct (Hin (Z.of_nat (length arr) + index)%Z) as (x & Hx & Hg); [lia|].
      rewrite Hx, Hg. reflexivity.
    + destruct (Z.lt_ge_cases index (Z.of_nat (length arr))).
      * destruct (Hin index) as (x & Hx & Hg); [lia|]. rewrite Hx, Hg. reflexivity.
      * rewrite get_outside, lookup_ge_None_2 by lia. reflexivity.
  - unfold ListClass.last, ListClass.at_, ListClass.getIndex, ListClass.length_.
    destruct arr as [|x arr]; [reflexivity|].
    zcases; cbn in *; try lia; reflexivity.
Qed.

Lemma take_then_drop (arr : list JsValue) (n : Z) :
  ArrayFn.take arr n ++ ArrayFn.drop arr n = arr.
Proof.
  unfold ArrayFn.take, ArrayFn.drop. rewrite slice_from_start, slice_to_end.
  apply firstn_skipn.
Qed.

(** X7: for every integer [n], negative ones included, [take(arr, n)]
    followed by [drop(arr, n)] is [arr]; [take] keeps the first [n]
    elements when [n >= 0] and drops the last [-n] when [n < 0]. *)
Theorem take_drop_append (arr : list JsValue) (n : Z) :
  ArrayFn.take arr n ++ ArrayFn.drop arr n = arr /\
  Z.of_nat (length (ArrayFn.take arr n))
  = Z.max 0 (Z.min (Z.of_nat (length arr))
               (if (n <? 0)%Z then Z.of_nat (length arr) + n else n)).
Proof.
  split; [apply take_then_drop|].
  unfold ArrayFn.take. rewrite slice_from_start, length_firstn.
  unfold JsArray.relative. destruct (Z.ltb_spec n 0); lia.
Qed.

(** X8: the methods [take] and [drop] of [List] return the empty list
    for every [n <= 0] (the test is [isNegative(n)], which is [!(n > 0)]);
    so [l.take(n)] followed by [l.drop(n)] is [l] for [n > 0], while
    [l.drop(0)] is empty and not [l]. *)
Theorem list_take_drop (this : list JsValue) (n : Z) :
  ListClass.take this n = (if (0 <? n)%Z then ArrayFn.take this n else []) /\
  ListClass.drop this n = (if (0 <? n)%Z then ArrayFn.drop this n else []) /\
  ListClass.take this n ++ ListClass.drop this n = (if (0 <? n)%Z then this else []).
Proof.
  unfold ListClass.take, ListClass.drop, isNegative, isPositive, ListClass.empty.
  destruct (0 <? n)%Z; cbn; repeat split.
  apply take_then_drop.
Qed.

(** ** [takeWhile], [dropWhile], [findIndex], [find] *)

Lemma while_loops (f : JsValue -> nat -> bool) (rest : list JsValue) :
  forall i res startIndex,
  exists pre post,
    rest = pre ++ post /\
    ArrayFn.takeWhile_loop f i rest res = res ++ pre /\
    ArrayFn.dropWhile_loop f i rest startIndex = (startIndex + Z.of_nat (length pre))%Z /\
    (forall j v, pre !! j = Some v -> f v (i + j) = true) /\
    (forall v, head post = Some v -> f v (i + length pre) = false).
Proof.
  induction rest as [|x rest IH]; intros i res startIndex.
  - exists [], []. cbn. rewrite app_nil_r, Z.add_0_r.
    repeat split; intros; discriminate.
  - cbn. destruct (f x i) eqn:Hx; cbn.
    + destruct (IH (S i) (res ++ [x]) (startIndex + 1)%Z)
        as (pre & post & -> & Htake & Hdrop & Hpre & Hpost).
      exists (x :: pre), post. rewrite Htake, Hdrop, <- app_assoc. cbn.
      repeat split; try lia.
      * intros [|j] v Hv; cbn in Hv.
        -- injection Hv as <-. rewrite Nat.add_0_r. assumption.
        -- rewrite Nat.add_succ_r. apply (Hpre j v Hv).
      * intros v Hv. rewrite Nat.add_succ_r. apply (Hpost v Hv).
    + exists [], (x :: rest). cbn. rewrite app_nil_r, Z.add_0_r.
      repeat split; try (intros; discriminate).
      intros v [= <-]. rewrite Nat.add_0_r. assumption.
Qed.

Lemma list_loops_are_array_loops (f : JsValue -> nat -> bool) (rest : list JsValue) :
  forall i res startIndex,
    ListClass.takeWhile_loop f i rest res = ArrayFn.takeWhile_loop f i rest res /\
    ListClass.dropWhile_loop f i rest startIndex = ArrayFn.dropWhile_loop f i rest startIndex.
Proof.
  induction rest as [|x rest IH]; intros i res startIndex; cbn; [split; reflexivity|].
  destruct (f x i); cbn; [apply IH | split; reflexivity].
Qed.

(** X9: [takeWhile(arr, f)] followed by [dropWhile(arr, f)] is [arr];
    every element [takeWhile] keeps satisfies [f] at its index, and the
    first element of [dropWhile(arr, f)], if there is one, does not. *)
Theorem takeWhile_dropWhile (arr : list JsValue) (f : JsValue -> nat -> bool) :
  ArrayFn.takeWhile arr f ++ ArrayFn.dropWhile arr f = arr /\
  (forall j v, ArrayFn.takeWhile arr f !! j = Some v -> f v j = true) /\
  (forall v, head (ArrayFn.dropWhile arr f) = Some v ->
             f v (length (ArrayFn.takeWhile arr f)) = false).
Proof.
  unfold ArrayFn.takeWhile, ArrayFn.dropWhile.
  destruct (while_loops f arr 0 [] 0%Z) as (pre & post & -> & -> & -> & Hpre & Hpost).
  rewrite slice_to_end. unfold JsArray.relative.
  destruct (Z.ltb_spec (0 + Z.of_nat (length pre)) 0); [lia|].
  replace (Z.to_nat _) with (length pre) by (rewrite length_app; lia).
  rewrite skipn_app, skipn_all, Nat.sub_diag. cbn.
  repeat split; assumption.
Qed.

(** X10: the method [dropWhile] of [List] hands its count to [drop], which
    returns the empty list for the count [0]: when the first element does
    not satisfy [f] (nothing is to be dropped) the result is empty, not
    the list; otherwise it is what the function [dropWhile] returns.
    [takeWhile] is the same for the method and the function. *)
Theorem list_dropWhile (this : list JsValue) (f : JsValue -> nat -> bool) :
  ListClass.dropWhile this f
  = match this with
    | [] => []
    | first :: _ => if f first 0 then ArrayFn.dropWhile this f else []
    end /\
  ListClass.takeWhile this f = ArrayFn.takeWhile this f.
Proof.
  split; [|apply list_loops_are_array_loops; exact 0%Z].
  unfold ListClass.dropWhile, ArrayFn.dropWhile.
  rewrite (proj2 (list_loops_are_array_loops f this 0 [] 0%Z)).
  destruct this as [|x rest]; [reflexivity|]. cbn.
  destruct (f x 0); [|reflexivity].
  destruct (while_loops f rest 1 [] (0 + 1)%Z) as (pre & post & _ & _ & -> & _).
  unfold ListClass.drop, isNegative, isPositive.
  destruct (Z.ltb_spec 0 (0 + 1 + Z.of_nat (length pre))); [reflexivity | lia].
Qed.

Lemma findIndex_loop_spec (f : JsValue -> nat -> bool) (rest : list JsValue) :
  forall i,
    match ArrayFn.findIndex_loop f i rest with
    | Some index =>
        exists j v, index = Z.of_nat (i + j) /\ rest !! j = Some v /\ f v (i + j) = true /\
                    forall k w, k < j -> rest !! k = Some w -> f w (i + k) = false
    | None => forall k w, rest !! k = Some w -> f w (i + k) = false
    end.
Proof.
  induction rest as [|x rest IH]; intros i; cbn.
  - intros k w Hk. discriminate.
  - destruct (f x i) eqn:Hx.
    + exists 0, x. rewrite Nat.add_0_r. repeat split; try assumption.
      intros k w Hk. lia.
    + specialize (IH (S i)). destruct (ArrayFn.findIndex_loop f (S i) rest).
      * destruct IH as (j & v & -> & Hj & Hv & Hmin).
        exists (S j), v. rewrite Nat.add_succ_r. repeat split; try assumption.
        intros [|k] w Hk Hw; cbn in Hw.
        -- injection Hw as <-. rewrite Nat.add_0_r. assumption.
        -- rewrite Nat.add_succ_r. apply Hmin; [lia | assumption].
      * intros [|k] w Hw; cbn in Hw.
        -- injection Hw as <-. rewrite Nat.add_0_r. assumption.
        -- rewrite Nat.add_succ_r. apply IH. assumption.
Qed.

(** X11: [findIndex(arr, f)] is [Some(i)] for the least index [i] whose
    element satisfies [f], and [None] when no element does. *)
Theorem findIndex_spec (arr : list JsValue) (f : JsValue -> nat -> bool) :
  (forall index, ArrayFn.findIndex arr f = Some index ->
     exists j v, index = Z.of_nat j /\ arr !! j = Some v /\ f v j = true /\
                 forall k w, k < j -> arr !! k = Some w -> f w k = false) /\
  (ArrayFn.findIndex arr f = None ->
     forall k w, arr !! k = Some w -> f w k = false).
Proof.
  unfold ArrayFn.findIndex. pose proof (findIndex_loop_spec f arr 0) as H.
  destruct (ArrayFn.findIndex_loop f 0 arr); split.
  - intros index [= <-]. exact H.
  - discriminate.
  - discriminate.
  - intros _. exact H.
Qed.

Lemma findIndex_from_loop (f : JsValue -> nat -> bool) (rest : list JsValue) :
  forall i,
    JsArray.findIndex_from f i rest = default (-1)%Z (ArrayFn.findIndex_loop f i rest) /\
    JsArray.find_from f i rest
    = match ArrayFn.findIndex_loop f i rest with
      | Some index => default VUndefined (rest !! (Z.to_nat index - i))
      | None => VUndefined
      end.
Proof.
  induction rest as [|x rest IH]; intros i; cbn; [split; reflexivity|].
  destruct (f x i) eqn:Hx; cbn.
  - rewrite Nat2Z.id, Nat.sub_diag. split; reflexivity.
  - destruct (IH (S i)) as [-> ->]. split; [reflexivity|].
    pose proof (findIndex_loop_spec f rest (S i)) as H.
    destruct (ArrayFn.findIndex_loop f (S i) rest); [|reflexivity].
    destruct H as (j & v & -> & _). rewrite Nat2Z.id.
    replace (S i + j - i) with (S j) by lia.
    replace (S i + j - S i) with j by lia. reflexivity.
Qed.

(** X12: the method [findIndex] of [List] tests the index with
    [isNegative], which holds for [0] too: a match at index [0] is
    reported as [None]; any other outcome is that of the function
    [findIndex]. *)
Theorem list_findIndex (this : list JsValue) (f : JsValue -> nat -> bool) :
  ListClass.findIndex this f
  = match ArrayFn.findIndex this f with
    | Some index => if (0 <? index)%Z then Some index else None
    | None => None
    end.
Proof.
  unfold ListClass.findIndex, JsArray.findIndex, ArrayFn.findIndex.
  rewrite (proj1 (findIndex_from_loop f this 0)).
  destruct (ArrayFn.findIndex_loop f 0 this) as [z|]; cbn; [|reflexivity].
  unfold isNegative, isPositive. destruct (0 <? z)%Z; reflexivity.
Qed.

(** X13: [find] looks at the first element that satisfies [f]: the
    function [find] returns it unless it is [null] or [undefined], the
    method [find] of [List] returns it unless it is falsy ([0], [""],
    [false], [NaN], [null], [undefined]); both return [None] then, as
    they do when nothing satisfies [f]. *)
Theorem find_spec (arr : list JsValue) (f : JsValue -> nat -> bool) :
  ArrayFn.find arr f
  = match ArrayFn.findIndex arr f with
    | Some index =>
        OptionFn.filter (arr !! Z.to_nat index) isPresent
    | None => None
    end /\
  ListClass.find arr f
  = match ArrayFn.findIndex arr f with
    | Some index => OptionFn.filter (arr !! Z.to_nat index) ToBoolean
    | None => None
    end.
Proof.
  unfold ArrayFn.find, ListClass.find, JsArray.find, ArrayFn.findIndex.
  rewrite (proj2 (findIndex_from_loop f arr 0)).
  pose proof (findIndex_loop_spec f arr 0) as H.
  destruct (ArrayFn.findIndex_loop f 0 arr); [|split; reflexivity].
  destruct H as (j & v & -> & Hj & _). cbn. rewrite Nat2Z.id, Nat.sub_0_r, Hj. cbn.
  unfold OptionConv.into, isPresent. split; destruct v as [| | | [] | | | | | |]; reflexivity.
Qed.

(** ** [insert], [remove], [swap], [move] *)

Lemma relative_nat len (p : nat) : p <= len -> JsArray.relative len (Z.of_nat p) = p.
Proof. intros Hp. unfold JsArray.relative. zcases; lia. Qed.

Lemma getIndex_nat len (p : nat) : ArrayFn.getIndex len (Z.of_nat p) = Z.of_nat p.
Proof. unfold ArrayFn.getIndex. zcases; [lia | reflexivity]. Qed.

Lemma getIndex_in_range len index :
  (- len <= index < len)%Z -> (0 <= ArrayFn.getIndex len index < len)%Z.
Proof. unfold ArrayFn.getIndex. zcases; lia. Qed.

(** X14: [insert] returns an array one element longer, whatever the
    index.  When the index names a position [p] between [0] and the
    length (directly, or counted from the end), the value stands at [p]
    with the elements before and after unchanged, and [remove] at [p]
    gives the array back. *)
Theorem insert_remove (arr : list JsValue) (value : JsValue) (at_ : Z) (p : nat) :
  ArrayFn.getIndex (Z.of_nat (length arr)) at_ = Z.of_nat p ->
  p <= length arr ->
  length (ArrayFn.insert arr value at_) = S (length arr) /\
  ArrayFn.insert arr value at_ = firstn p arr ++ value :: skipn p arr /\
  ArrayFn.remove (ArrayFn.insert arr value at_) (Z.of_nat p) = arr.
Proof.
  intros Hidx Hp.
  assert (Hins : ArrayFn.insert arr value at_ = firstn p arr ++ value :: skipn p arr).
  { unfold ArrayFn.insert, ArrayFn.length_of, JsArray.splice. cbn.
    rewrite Hidx, relative_nat by assumption.
    rewrite Nat.add_0_r. reflexivity. }
  rewrite Hins. split; [|split; [reflexivity|]].
  - rewrite length_app, length_firstn. cbn. rewrite length_skipn. lia.
  - unfold ArrayFn.remove, ArrayFn.length_of, JsArray.splice. cbn.
    rewrite getIndex_nat, relative_nat
      by (rewrite length_app, length_firstn; cbn; rewrite length_skipn; lia).
    assert (Hlen : length (firstn p arr) = p) by (rewrite length_firstn; lia).
    replace (Nat.min _ _) with 1
      by (rewrite length_app, Hlen; cbn; rewrite length_skipn; lia).
    rewrite take_app_length' by (symmetry; exact Hlen).
    rewrite drop_app_ge by lia. rewrite Hlen.
    replace (p + 1 - p) with 1 by lia. cbn. rewrite skipn_O.
    apply firstn_skipn.
Qed.

Lemma insert_remove_witness :
  ArrayFn.remove
    (ArrayFn.insert [VNumber (Finite 1); VNumber (Finite 3)] (VNumber (Finite 2)) (-1)) 1
  = [VNumber (Finite 1); VNumber (Finite 3)].
Proof.
  apply (insert_remove [VNumber (Finite 1); VNumber (Finite 3)] (VNumber (Finite 2))
           (-1) 1); [reflexivity | cbn; lia].
Defined.

Lemma set_in_range (arr : list JsValue) (i : nat) (v : JsValue) :
  i < length arr -> JsArray.set arr (Z.of_nat i) v = <[i := v]> arr.
Proof.
  intros Hi. unfold JsArray.set. zcases; [lia|]. rewrite Nat2Z.id.
  destruct (Nat.ltb_spec i (length arr)); [reflexivity | lia].
Qed.

(** X15: when both indices name elements (directly, or counted from the
    end), [swap] exchanges the two elements and leaves the others where
    they are, keeps the length, and undoes itself when applied again. *)
Theorem swap_spec (arr : list JsValue) (a b : Z) (i j : nat) (x y : JsValue) :
  ArrayFn.getIndex (Z.of_nat (length arr)) a = Z.of_nat i ->
  ArrayFn.getIndex (Z.of_nat (length arr)) b = Z.of_nat j ->
  arr !! i = Some x ->
  arr !! j = Some y ->
  ArrayFn.swap arr a b = <[j := x]> (<[i := y]> arr) /\
  length (ArrayFn.swap arr a b) = length arr /\
  ArrayFn.swap (ArrayFn.swap arr a b) a b = arr.
Proof.
  intros Ha Hb Hx Hy.
  assert (Hi : i < length arr) by (eapply lookup_lt_Some; eassumption).
  assert (Hj : j < length arr) by (eapply lookup_lt_Some; eassumption).
  assert (Hswap : forall l u v, length l = length arr -> l !! i = Some u -> l !! j = Some v ->
            ArrayFn.swap l a b = <[j := u]> (<[i := v]> l)).
  { intros l u v Hl Hu Hv. unfold ArrayFn.swap, ArrayFn.length_of.
    rewrite Hl, Ha, Hb, !get_lookup, Hu, Hv. cbn.
    rewrite (set_in_range l i) by lia.
    rewrite set_in_range by (rewrite length_insert; lia). reflexivity. }
  rewrite (Hswap arr x y eq_refl Hx Hy).
  split; [reflexivity|]. split; [rewrite !length_insert; reflexivity|].
  destruct (decide (i = j)) as [->|Hne].
  - assert (x = y) as <- by congruence.
    rewrite list_insert_insert_eq, (list_insert_id _ j x) by assumption.
    rewrite (Hswap arr x x eq_refl Hx Hx).
    rewrite list_insert_insert_eq. apply list_insert_id, Hx.
  - rewrite (Hswap _ y x).
    + rewrite (list_insert_insert_ne _ i j) by assumption.
      rewrite !list_insert_insert_eq.
      rewrite (list_insert_id _ i x) by assumption.
      apply list_insert_id, Hy.
    + rewrite !length_insert. reflexivity.
    + rewrite list_lookup_insert_ne by congruence.
      apply list_lookup_insert_eq. lia.
    + apply list_lookup_insert_eq. rewrite length_insert. lia.
Qed.

Lemma swap_spec_witness :
  ArrayFn.swap [VNumber (Finite 1); VNumber (Finite 2); VNumber (Finite 3)] 0 (-1)
  = [VNumber (Finite 3); VNumber (Finite 2); VNumber (Finite 1)].
Proof.
  apply (swap_spec [VNumber (Finite 1); VNumber (Finite 2); VNumber (Finite 3)] 0 (-1)
           0 2 (VNumber (Finite 1)) (VNumber (Finite 3))); reflexivity.
Defined.

Lemma remove_nat (l : list JsValue) (p : nat) :
  p < length l -> ArrayFn.remove l (Z.of_nat p) = firstn p l ++ skipn (S p) l.
Proof.
  intros Hp. unfold ArrayFn.remove, ArrayFn.length_of, JsArray.splice. cbn.
  rewrite getIndex_nat, relative_nat by lia.
  replace (Nat.min _ _) with 1 by lia.
  replace (p + 1) with (S p) by lia. reflexivity.
Qed.

Lemma move_in_range (arr : list JsValue) (from to : Z) (i j : nat) (x : JsValue) :
  ArrayFn.getIndex (Z.of_nat (length arr)) from = Z.of_nat i ->
  ArrayFn.getIndex (Z.of_nat (length arr)) to = Z.of_nat j ->
  arr !! i = Some x ->
  j < length arr ->
  ArrayFn.move arr from to
  = firstn j (firstn i arr ++ skipn (S i) arr) ++ x :: skipn j (firstn i arr ++ skipn (S i) arr).
Proof.
  intros Hfrom Hto Hx Hj.
  assert (Hi : i < length arr) by (eapply lookup_lt_Some; eassumption).
  unfold ArrayFn.move, ArrayFn.length_of, JsArray.splice.
  rewrite Hfrom, Hto.
  rewrite (relative_nat (length arr) i) by lia.
  replace (Nat.min (Z.to_nat (Z.max 1 0)) (length arr - i)) with 1 by lia.
  replace (i + 1) with (S i) by lia.
  rewrite (drop_S arr x i Hx) at 1. cbn.
  rewrite relative_nat
    by (rewrite length_app, length_firstn, length_skipn; lia).
  rewrite Nat.add_0_r. reflexivity.
Qed.

(** X16: when [from] names an element and [to] a position of the array
    (directly, or counted from the end), [move] keeps the length, puts
    that element at position [to], and leaves the other elements in
    their order: removing position [to] from the result and removing
    position [from] from the input give the same array. *)
Theorem move_spec (arr : list JsValue) (from to : Z) (i j : nat) (x : JsValue) :
  ArrayFn.getIndex (Z.of_nat (length arr)) from = Z.of_nat i ->
  ArrayFn.getIndex (Z.of_nat (length arr)) to = Z.of_nat j ->
  arr !! i = Some x ->
  j < length arr ->
  length (ArrayFn.move arr from to) = length arr /\
  ArrayFn.move arr from to !! j = Some x /\
  ArrayFn.remove (ArrayFn.move arr from to) (Z.of_nat j) = ArrayFn.remove arr (Z.of_nat i).
Proof.
  intros Hfrom Hto Hx Hj.
  assert (Hi : i < length arr) by (eapply lookup_lt_Some; eassumption).
  rewrite (move_in_range arr from to i j x) by assumption.
  set (rest := firstn i arr ++ skipn (S i) arr).
  assert (Hrest : length rest = length arr - 1).
  { unfold rest. rewrite length_app, length_firstn, length_skipn. lia. }
  assert (Htake : length (firstn j rest) = j) by (rewrite length_firstn; lia).
  assert (Hlen : length (firstn j rest ++ x :: skipn j rest) = length arr).
  { rewrite length_app, Htake. cbn. rewrite length_skipn. lia. }
  split; [exact Hlen|]. split.
  - rewrite lookup_app_r by lia. rewrite Htake, Nat.sub_diag. reflexivity.
  - rewrite remove_nat by lia. rewrite remove_nat by lia.
    rewrite take_app_length' by (symmetry; exact Htake).
    rewrite drop_app_ge by lia. rewrite Htake.
    replace (S j - j) with 1 by lia. cbn. rewrite skipn_O.
    apply firstn_skipn.
Qed.

Lemma move_spec_witness :
  ArrayFn.move [VNumber (Finite 1); VNumber (Finite 2); VNumber (Finite 3)] 0 (-1) !! 2
  = Some (VNumber (Finite 1)).
Proof.
  apply (move_spec [VNumber (Finite 1); VNumber (Finite 2); VNumber (Finite 3)] 0 (-1)
           0 2 (VNumber (Finite 1))); [reflexivity | reflexivity | reflexivity | cbn; lia].
Defined.

(** X17: [move] does not check [from]: when it lies past the last element
    nothing is removed, and [undefined] is inserted at position [to], so
    the result is one element longer than the input. *)
Theorem move_from_past_the_end (arr : list JsValue) (from to : Z) (j : nat) :
  (Z.of_nat (length arr) <= from)%Z ->
  ArrayFn.getIndex (Z.of_nat (length arr)) to = Z.of_nat j ->
  j <= length arr ->
  ArrayFn.move arr from to = firstn j arr ++ VUndefined :: skipn j arr /\
  length (ArrayFn.move arr from to) = S (length arr).
Proof.
  intros Hfrom Hto Hj.
  assert (Hmove : ArrayFn.move arr from to = firstn j arr ++ VUndefined :: skipn j arr).
  { unfold ArrayFn.move, ArrayFn.length_of, JsArray.splice.
    assert (Hgi : ArrayFn.getIndex (Z.of_nat (length arr)) from = from)
      by (unfold ArrayFn.getIndex; zcases; [lia | reflexivity]).
    assert (Hrel : JsArray.relative (length arr) from = length arr)
      by (unfold JsArray.relative; zcases; lia).
    rewrite Hgi, Hto, Hrel, Nat.sub_diag, Nat.min_0_r, Nat.add_0_r.
    rewrite firstn_all, skipn_all. cbn.
    rewrite app_nil_r, Nat.add_0_r, relative_nat by assumption.
    reflexivity. }
  rewrite Hmove. split; [reflexivity|].
  rewrite length_app, length_firstn. cbn. rewrite length_skipn. lia.
Qed.

Lemma move_from_past_the_end_witness :
  ArrayFn.move [VNumber (Finite 1); VNumber (Finite 2)] 5 0
  = [VUndefined; VNumber (Finite 1); VNumber (Finite 2)].
Proof.
  apply (move_from_past_the_end [VNumber (Finite 1); VNumber (Finite 2)] 5 0 0);
    [cbn; lia | reflexivity | cbn; lia].
Defined.

(** ** [chunk] *)

Lemma chunk_loop_spec (arr : list JsValue) (s : nat) :
  0 < s ->
  forall fuel o chunks,
    length arr - o <= fuel ->
    exists rest,
      ArrayFn.chunk_loop fuel arr (Z.of_nat s) (Z.of_nat o) chunks = Some (chunks ++ rest) /\
      concat rest = skipn o arr /\
      forall m c, rest !! m = Some c ->
        c = firstn s (skipn (o + m * s) arr) /\ c <> [].
Proof.
  intros Hs. induction fuel as [|fuel IH]; intros o chunks Hfuel.
  - exists []. cbn. unfold ArrayFn.length_of. zcases; [lia|].
    rewrite app_nil_r, skipn_all2 by lia. repeat split; intros; discriminate.
  - cbn [ArrayFn.chunk_loop]. unfold ArrayFn.length_of. zcases.
    + destruct (IH (o + s) (chunks ++ [firstn s (skipn o arr)])) as (rest & Hrun & Hcat & Hrest);
        [lia|].
      exists (firstn s (skipn o arr) :: rest).
      rewrite slice_nat. rewrite <- Nat2Z.inj_add, Hrun, <- app_assoc. cbn.
      split; [reflexivity|]. split.
      * rewrite Hcat. rewrite <- (drop_drop arr s o). apply firstn_skipn.
      * intros [|m] c Hc; cbn in Hc.
        -- injection Hc as <-. rewrite Nat.add_0_r. split; [reflexivity|].
           intros Hnil. apply (f_equal (@length _)) in Hnil.
           rewrite length_firstn, length_skipn in Hnil. cbn in Hnil. lia.
        -- destruct (Hrest m c Hc) as [-> Hne]. split; [|exact Hne].
           do 2 f_equal. lia.
    + exists []. rewrite app_nil_r, skipn_all2 by lia.
      repeat split; intros; discriminate.
Qed.

(** X18: [chunk] returns for every array and every size.  For a size
    [<= 0] the result is empty; for a size [s >= 1] the chunks put end to
    end give the array back, no chunk is empty, and chunk number [m] is
    the [s] elements from position [m * s] on (fewer when the array
    ends). *)
Theorem chunk_spec (arr : list JsValue) (size : Z) :
  exists chunks,
    ArrayFn.chunk arr size = Some chunks /\
    if (size <=? 0)%Z then chunks = []
    else concat chunks = arr /\
         forall m c, chunks !! m = Some c ->
           c = firstn (Z.to_nat size) (skipn (m * Z.to_nat size) arr) /\ c <> [].
Proof.
  unfold ArrayFn.chunk. destruct (Z.leb_spec size 0) as [Hle|Hgt].
  - exists []. split; reflexivity.
  - destruct (chunk_loop_spec arr (Z.to_nat size) ltac:(lia) (length arr) 0 [])
      as (rest & Hrun & Hcat & Hrest); [lia|].
    rewrite Z2Nat.id in Hrun by lia. exists rest. split; [exact Hrun|].
    split; [exact Hcat|exact Hrest].
Qed.

(** ** [List.range] *)




Lemma range_loop_diverges (to step : Z) :
  (step <= 0)%Z ->
  forall fuel i result, (i < to)%Z -> ListClass.range_loop fuel i to step result = None.
Proof.
  intros Hstep. induction fuel as [|fuel IH]; intros i result Hi; cbn; zcases; try lia.
  - reflexivity.
  - apply IH. lia.
Qed.

(** X20: [List.range] does not check [step]: with [step <= 0] and
    [from < to] the loop never ends, however many rounds it is given. *)
Theorem range_never_returns (fuel : nat) (from to step : Z) :
  (step <= 0)%Z ->
  (from < to)%Z ->
  ListClass.range fuel from to step = None.
Proof. intros Hstep Hlt. apply range_loop_diverges; assumption. Qed.

Lemma range_never_returns_witness : ListClass.range 1000 0 5 0 = None.
Proof. apply (range_never_returns 1000 0 5 0); lia. Defined.

(** ** [List.reverse] *)

Lemma element_at_rev (l : list JsValue) (i : Z) :
  element_at (rev l) i = element_at l (-1 - i).
Proof.
  rewrite rev_alt. change (rev_append l []) with (reverse l).
  unfold element_at. rewrite length_reverse.
  zcases; try lia; try reflexivity.
  - symmetry. apply lookup_ge_None_2. lia.
  - rewrite reverse_lookup by lia. f_equal. lia.
  - apply lookup_ge_None_2. rewrite length_reverse. lia.
  - rewrite reverse_lookup by lia. f_equal. lia.
Qed.

(** X21: the method [reverse] of [List] reverses the receiver itself
    ([this.#arr.reverse()] works in place): after the call the receiver
    holds the same elements as the list returned, so its [at(i)] is what
    [at(-1 - i)] was before (its [first] the old [last]), and a second
    call on it returns the original order and restores it. *)
Theorem list_reverse_in_place (this : list JsValue) :
  snd (ListClass.reverse this) = fst (ListClass.reverse this) /\
  (forall i, ListClass.at_ (snd (ListClass.reverse this)) i = ListClass.at_ this (-1 - i)) /\
  ListClass.first (snd (ListClass.reverse this)) = ListClass.last this /\
  ListClass.reverse (snd (ListClass.reverse this)) = (this, this).
Proof.
  unfold ListClass.reverse. cbn. split; [reflexivity|]. split; [|split].
  - intros i. rewrite !list_at_element_at. apply element_at_rev.
  - unfold ListClass.first, ListClass.last. rewrite !list_at_element_at.
    rewrite element_at_rev. unfold element_at, ListClass.length_.
    destruct this as [|x this]; [reflexivity|]. zcases; try (cbn in *; lia).
    f_equal; lia.
  - rewrite rev_involutive. reflexivity.
Qed.

(** ** [group] *)

Lemma group_loop_spec (f : JsValue -> nat -> string) : forall rest i obj,
  (forall k v, lookup_property obj k = Some v -> exists l, v = VArray l /\ l <> []) ->
  forall k,
    lookup_property (ArrayFn.group_loop f i rest obj) k
    = match array_items (default (VArray []) (lookup_property obj k)) ++ members f k i rest with
      | [] => None
      | l => Some (VArray l)
      end.
Proof.
  induction rest as [|item rest IH]; intros i obj Hobj k.
  - cbn. rewrite app_nil_r. destruct (lookup_property obj k) as [v|] eqn:Hk; [|reflexivity].
    destruct (Hobj k v Hk) as (l & -> & Hl). cbn. destruct l; [contradiction|reflexivity].
  - cbn [ArrayFn.group_loop members].
    set (key := f item i).
    set (obj1 := if negb (has_own_property obj key) then set_property obj key (VArray []) else obj).
    set (items := array_items (default VUndefined (lookup_property obj1 key)) ++ [item]).
    assert (Hitems : items = array_items (default (VArray []) (lookup_property obj key)) ++ [item]).
    { unfold items, obj1.
      pose proof (ParserFacts.has_own_property_lookup obj key) as Hown.
      destruct (lookup_property obj key) as [v|] eqn:Hkey; cbn in Hown; rewrite Hown; cbn.
      - rewrite Hkey. reflexivity.
      - rewrite ParserFacts.lookup_set_property, String.eqb_refl. reflexivity. }
    assert (Hlookup : forall k', lookup_property (set_property obj1 key (VArray items)) k'
              = if String.eqb key k' then Some (VArray items) else lookup_property obj k').
    { intros k'. rewrite ParserFacts.lookup_set_property.
      destruct (String.eqb key k') eqn:Hk'; [reflexivity|].
      unfold obj1. destruct (negb (has_own_property obj key)); [|reflexivity].
      rewrite ParserFacts.lookup_set_property, Hk'. reflexivity. }
    rewrite IH.
    + rewrite Hlookup.
      destruct (String.eqb key k) eqn:Hk.
      * apply String.eqb_eq in Hk. subst k. cbn. rewrite Hitems, <- app_assoc. reflexivity.
      * reflexivity.
    + intros k' v. rewrite Hlookup. destruct (String.eqb key k').
      * intros [= <-]. exists items. split; [reflexivity|].
        rewrite Hitems. intros Hnil. apply app_eq_nil in Hnil. destruct Hnil. discriminate.
      * apply Hobj.
Qed.

(** X22: in the object [group] returns, the property [k] holds the
    elements to which [f] gave the key [k], in the order of the array;
    a key that [f] gave to no element is no property of the object.  So
    each element is in exactly one group, and no group is empty. *)
Theorem group_spec (arr : list JsValue) (f : JsValue -> nat -> string) (k : string) :
  lookup_property (own_properties (ArrayFn.group arr f)) k
  = match members f k 0 arr with
    | [] => None
    | l => Some (VArray l)
    end.
Proof.
  unfold ArrayFn.group. cbn [own_properties].
  rewrite group_loop_spec; [reflexivity|]. intros ? ? [=].
Qed.

End ArrayFacts.

(** * The parsers: what is read, what is returned, and laws *)

Module ParserLaws.

Import ParserFacts.

(** ** [getTypeOf] and the guards *)

Lemma getTypeOf_guards (v : JsValue) :
  (isString v = false -> getTypeOf v <> Type_.String) /\
  (isValidNumber v = false -> getTypeOf v <> Type_.Number) /\
  (isBoolean v = false -> getTypeOf v <> Type_.Boolean) /\
  (isArray v = false -> getTypeOf v <> Type_.Array).
Proof.
  destruct v as [| | | [] | | | | | | [] ? ?]; cbn; repeat split; intros; discriminate.
Qed.

(** X24: when [string()], [number()], [boolean()], [array(p)] or
    [tuple(ps)] turns its input down at its own type test, it returns a
    new [ParseError] with an empty path whose [expected] is the parser's
    type and whose [actual] is [getTypeOf(input)], and the two differ:
    [NaN] and the infinities are reported as ["nan"] and ["infinity"],
    not as ["number"]. *)
Theorem type_errors_name_two_types (input : JsValue) :
  (isString input = false ->
     rejects (P.string_ None) input "string" /\ getTypeOf input <> "string") /\
  (isValidNumber input = false ->
     rejects (P.number None) input "number" /\ getTypeOf input <> "number") /\
  (isBoolean input = false ->
     rejects P.boolean input "boolean" /\ getTypeOf input <> "boolean") /\
  (isArray input = false ->
     (forall parser, rejects (P.array parser) input "array") /\
     (forall parsers, rejects (P.tuple parsers) input "array") /\
     getTypeOf input <> "array").
Proof.
  destruct (getTypeOf_guards input) as (Hs & Hn & Hb & Ha).
  repeat split; try (intros; intros h; cbn; rewrite H; reflexivity).
  - apply Hs, H.
  - apply Hn, H.
  - apply Hb, H.
  - apply Ha, H.
Qed.

(** X25: [object] and [record] called on an instance of a class that
    [getTypeOf] does not know (any class of the program's own) turn it
    down, since it is no plain object, with an error whose [expected] and
    [actual] are both ["object"]: the message says that type 'object' is
    not assignable to type 'object'. *)
Theorem object_rejects_class_instance (shape : list (string * P.Parser))
    (keyParser valueParser : P.Parser) (text : string) (num : JsNumber) (h : P.Heap) :
  let input := VInstance COther text num in
  let error := P.mkParseError "Type 'object' is not assignable to type 'object'"
                 "object" "object" input [] in
  isPlainObject input = false /\
  P.run (P.object shape) input h = (Returns (Err (length h)), h ++ [error]) /\
  P.run (P.record keyParser valueParser) input h = (Returns (Err (length h)), h ++ [error]).
Proof. repeat split. Qed.

(** ** What a successful call returned *)

Lemma run_inv {A B} (m : P.M A) (k : A -> P.M B) h b h' :
  P.bind m k h = (Returns b, h') ->
  exists a h1, m h = (Returns a, h1) /\ k a h1 = (Returns b, h').
Proof.
  unfold P.bind. destruct (m h) as [[a|e] h1]; [eauto | discriminate].
Qed.

Lemma array_loop_inv parser : forall items i arr h v h',
  P.array_loop parser i items arr h = (Returns (Ok v), h') ->
  exists vs, v = VArray (arr ++ vs) /\ Forall2 (accepts parser) items vs.
Proof.
  induction items as [|x items IH]; intros i arr h v h' Hrun; simpl P.array_loop in Hrun.
  - injection Hrun as <- <-. exists []. rewrite app_nil_r. split; constructor.
  - apply run_inv in Hrun as ([w|r] & h1 & Hx & Hrun); cbn -[P.array_loop] in Hrun.
    + apply IH in Hrun as (vs & -> & Hvs). exists (w :: vs).
      rewrite <- app_assoc. split; [reflexivity|].
      constructor; [exists h, h1; exact Hx | exact Hvs].
    + discriminate.
Qed.

Lemma array_loop_fixes parser vs :
  Forall (fixes parser) vs ->
  forall i arr h, exists h',
    P.array_loop parser i vs arr h = (Returns (Ok (VArray (arr ++ vs))), h').
Proof.
  induction 1 as [|v vs Hv _ IH]; intros i arr h; simpl P.array_loop.
  - exists h. rewrite app_nil_r. reflexivity.
  - destruct (Hv h) as [h1 Hrun]. erewrite bind_returns by exact Hrun.
    cbn -[P.array_loop]. destruct (IH (S i) (arr ++ [v]) h1) as [h' Hloop].
    exists h'. unfold identity. rewrite Hloop, <- app_assoc. reflexivity.
Qed.

Lemma tuple_loop_inv : forall parsers i input arr h v h',
  P.tuple_loop parsers i input arr h = (Returns (Ok v), h') ->
  exists vs, v = VArray (arr ++ vs) /\
    Forall2 (fun call v => accepts (fst call) (snd call) v) (tuple_calls parsers i input) vs.
Proof.
  induction parsers as [|p parsers IH]; intros i input arr h v h' Hrun;
    simpl P.tuple_loop in Hrun.
  - injection Hrun as <- <-. exists []. rewrite app_nil_r. split; constructor.
  - apply run_inv in Hrun as ([w|r] & h1 & Hx & Hrun); cbn -[P.tuple_loop] in Hrun.
    + apply IH in Hrun as (vs & -> & Hvs). exists (w :: vs).
      rewrite <- app_assoc. split; [reflexivity|].
      constructor; [exists h, h1; exact Hx | exact Hvs].
    + discriminate.
Qed.

Lemma tuple_loop_fixes parsers vs :
  Forall2 fixes parsers vs ->
  forall pre arr h, exists h',
    P.tuple_loop parsers (length pre) (VArray (pre ++ vs)) arr h
    = (Returns (Ok (VArray (arr ++ vs))), h').
Proof.
  induction 1 as [|p v parsers vs Hv _ IH]; intros pre arr h; simpl P.tuple_loop.
  - exists h. rewrite app_nil_r. reflexivity.
  - unfold array_get. cbn [array_items]. rewrite list_lookup_middle by reflexivity.
    cbn [default]. destruct (Hv h) as [h1 Hrun]. erewrite bind_returns by exact Hrun.
    cbn -[P.tuple_loop].
    destruct (IH (pre ++ [v]) (arr ++ [v]) h1) as [h' Hloop].
    rewrite length_app, Nat.add_1_r, <- !app_assoc in Hloop. cbn [app] in Hloop.
    exists h'. unfold identity. rewrite Hloop. reflexivity.
Qed.

Lemma object_loop_inv : forall shape input obj h v h',
  P.object_loop shape input obj h = (Returns (Ok v), h') ->
  exists vs,
    v = VObject NullPrototype (assign_all (zip (List.map fst shape) vs) obj) /\
    Forall2 (fun kp v => accepts (snd kp) (get input (fst kp)) v) shape vs.
Proof.
  induction shape as [|[key p] shape IH]; intros input obj h v h' Hrun;
    simpl P.object_loop in Hrun.
  - injection Hrun as <- <-. exists []. split; constructor.
  - apply run_inv in Hrun as ([w|r] & h1 & Hx & Hrun); cbn -[P.object_loop] in Hrun.
    + apply IH in Hrun as (vs & -> & Hvs). exists (w :: vs).
      split; [reflexivity|].
      constructor; [exists h, h1; exact Hx | exact Hvs].
    + discriminate.
Qed.

Lemma object_loop_fixes input : forall shape vs,
  Forall2 (fun kp v => fixes (snd kp) v /\ get input (fst kp) = v) shape vs ->
  forall obj h, exists h',
    P.object_loop shape input obj h
    = (Returns (Ok (VObject NullPrototype (assign_all (zip (List.map fst shape) vs) obj))), h').
Proof.
  induction 1 as [|[key p] v shape vs [Hv Hget] _ IH]; intros obj h; simpl P.object_loop.
  - exists h. reflexivity.
  - cbn [fst snd] in *. rewrite Hget. destruct (Hv h) as [h1 Hrun].
    erewrite bind_returns by exact Hrun. cbn -[P.object_loop].
    destruct (IH (set_property obj key v) h1) as [h' Hloop].
    exists h'. unfold identity. rewrite Hloop. reflexivity.
Qed.

Lemma lookup_property_None props key :
  ~ In key (List.map fst props) -> lookup_property props key = None.
Proof.
  induction props as [|[k v] props IH]; cbn; [reflexivity|]. intros Hin.
  destruct (String.eqb_spec k key) as [->|_]; [tauto|]. apply IH. tauto.
Qed.

Lemma lookup_property_rev (kvs : list (string * JsValue)) key v :
  NoDup (List.map fst kvs) -> In (key, v) kvs ->
  lookup_property (rev kvs) key = Some v.
Proof.
  induction kvs as [|[k w] kvs IH]; cbn; [tauto|]. intros Hnodup Hin.
  apply NoDup_cons in Hnodup as [Hk Hnodup].
  rewrite lookup_property_app. destruct Hin as [[= -> ->]|Hin].
  - rewrite lookup_property_None.
    + cbn. rewrite String.eqb_refl. reflexivity.
    + rewrite map_rev, <- in_rev. rewrite <- list_elem_of_In. exact Hk.
  - rewrite (IH Hnodup Hin). reflexivity.
Qed.

Lemma map_fst_zip {A B} (l : list A) : forall k : list B,
  length l = length k -> List.map fst (zip l k) = l.
Proof.
  induction l as [|x l IH]; intros [|y k] Hlen; cbn in *; try discriminate.
  - reflexivity.
  - f_equal. apply IH. lia.
Qed.

Lemma strictly_equals_eq input constant :
  P.strictly_equals input constant = true -> input = P.Literal_value constant.
Proof.
  destruct input as [| | b | n | s | | | | |], constant as [s'|n'|b'|]; cbn;
    try discriminate; try reflexivity.
  - destruct b, b'; cbn; congruence.
  - destruct n, n'; cbn; try discriminate; try reflexivity.
    intros Heq. apply Z.eqb_eq in Heq. congruence.
  - intros Heq. apply String.eqb_eq in Heq. congruence.
Qed.

(** X26: parsing what a parser returned gives the same value back.  This
    holds for [string] and [number] (with or without coercion),
    [boolean], [literal] and [unknown], and it is passed on by [maybe],
    [array] and [tuple], and by [object] when the keys of the shape are
    distinct. *)
Theorem parsing_is_idempotent :
  (forall opts, idempotent (P.string_ opts)) /\
  (forall opts, idempotent (P.number opts)) /\
  idempotent P.boolean /\
  idempotent P.unknown /\
  (forall constant, idempotent (P.literal constant)) /\
  (forall parser, idempotent parser -> idempotent (P.maybe parser)) /\
  (forall parser, idempotent parser -> idempotent (P.array parser)) /\
  (forall parsers, Forall idempotent parsers -> idempotent (P.tuple parsers)) /\
  (forall shape, NoDup (List.map fst shape) ->
                 Forall (fun kp => idempotent (snd kp)) shape ->
                 idempotent (P.object shape)).
Proof.
  repeat apply conj.
  - intros opts x v (h & h' & Hrun) h1. cbn in *. destruct (P.coerce_of opts).
    + destruct (String_ x) as [s|e]; cbn in Hrun; [|discriminate].
      injection Hrun as <- <-. exists h1. reflexivity.
    + cbn in *. destruct (isString x) eqn:Hx; cbn in Hrun; [|discriminate].
      injection Hrun as <- <-. rewrite Hx. exists h1. reflexivity.
  - intros opts x v (h & h' & Hrun) h1. cbn in *. destruct (P.coerce_of opts).
    + destruct (Number_ x) as [n|e]; cbn in Hrun; [|discriminate].
      destruct n; cbn in Hrun; try discriminate.
      injection Hrun as <- <-. exists h1. reflexivity.
    + cbn in *. destruct (isValidNumber x) eqn:Hx; cbn in Hrun; [|discriminate].
      injection Hrun as <- <-. rewrite Hx. exists h1. reflexivity.
  - intros x v (h & h' & Hrun) h1. cbn in *.
    destruct (isBoolean x) eqn:Hx; cbn in Hrun; [|discriminate].
    injection Hrun as <- <-. rewrite Hx. exists h1. reflexivity.
  - intros x v (h & h' & Hrun) h1. cbn in *. injection Hrun as <- <-.
    exists h1. reflexivity.
  - intros constant x v (h & h' & Hrun) h1. cbn in *.
    destruct (P.strictly_equals x constant) eqn:Hx.
    + injection Hrun as <- <-. rewrite <- (strictly_equals_eq x constant Hx), Hx.
      exists h1. reflexivity.
    + destruct (String_ (P.Literal_value constant)); discriminate.
  - intros parser Hp x v (h & h' & Hrun) h1. cbn in *.
    destruct (isNil x) eqn:Hx.
    + injection Hrun as <- <-. rewrite Hx. exists h1. reflexivity.
    + destruct (isNil v); [exists h1; reflexivity|].
      apply (Hp x v). exists h, h'. exact Hrun.
  - intros parser Hp x v (h & h' & Hrun) h1. cbn in Hrun.
    destruct (isArray x) eqn:Hx; cbn in Hrun; [|discriminate].
    apply array_loop_inv in Hrun as (vs & -> & Hvs). cbn [app].
    rewrite run_array. apply (array_loop_fixes parser vs).
    clear -Hp Hvs. induction Hvs; constructor; eauto.
  - intros parsers Hp x v (h & h' & Hrun) h1. cbn in Hrun.
    destruct (isArray x) eqn:Hx; cbn in Hrun; [|discriminate].
    apply tuple_loop_inv in Hrun as (vs & -> & Hvs). cbn [app].
    rewrite run_tuple by reflexivity.
    assert (Hfix : Forall2 fixes parsers vs).
    { clear -Hp Hvs. revert Hvs. generalize 0. revert vs.
      induction Hp as [|p parsers Hp _ IH]; intros vs i Hvs; inversion Hvs; subst;
        constructor; eauto. }
    apply (tuple_loop_fixes parsers vs Hfix [] [] h1).
  - intros shape Hnodup Hp x v (h & h' & Hrun) h1. cbn -[isPlainObject] in Hrun.
    destruct (isPlainObject x) eqn:Hx; cbn -[isPlainObject] in Hrun; [|discriminate].
    apply object_loop_inv in Hrun as (vs & -> & Hvs).
    rewrite run_object by reflexivity. apply object_loop_fixes.
    assert (Hin : forall k w, In (k, w) (zip (List.map fst shape) vs) ->
              get (VObject NullPrototype (assign_all (zip (List.map fst shape) vs) [])) k = w).
    { intros k w Hkw. unfold get. cbn [own_properties].
      rewrite lookup_assign_all, (lookup_property_rev _ k w); [reflexivity| |exact Hkw].
      assert (Hlen : length (List.map fst shape) = length vs)
        by (rewrite length_map; eapply Forall2_length; exact Hvs).
      rewrite map_fst_zip by exact Hlen. exact Hnodup. }
    clear Hnodup. revert Hin. generalize (assign_all (zip (List.map fst shape) vs) []).
    induction Hvs as [|[k p] w shape vs Hw Hvs IH]; intros out Hin; constructor.
    + cbn [fst snd] in *. split.
      * apply Forall_inv in Hp. eapply Hp, Hw.
      * apply Hin. left. reflexivity.
    + apply IH; [eapply Forall_inv_tail, Hp|].
      intros k' w' Hkw. apply Hin. right. exact Hkw.
Qed.

(** ** What a combinator reads of its input *)

Lemma bind_ext {A B} (m : P.M A) (k1 k2 : A -> P.M B) h :
  (forall a h1, k1 a h1 = k2 a h1) -> P.bind m k1 h = P.bind m k2 h.
Proof. intros Hk. unfold P.bind. destruct (m h) as [[a|e] h1]; [apply Hk | reflexivity]. Qed.

Lemma tuple_loop_ext : forall parsers i input1 input2 arr h,
  (forall j, j < length parsers -> array_get input1 (i + j) = array_get input2 (i + j)) ->
  P.tuple_loop parsers i input1 arr h = P.tuple_loop parsers i input2 arr h.
Proof.
  induction parsers as [|p parsers IH]; intros i input1 input2 arr h Hget;
    simpl P.tuple_loop; [reflexivity|].
  assert (H0 : array_get input1 i = array_get input2 i)
    by (rewrite <- (Nat.add_0_r i); apply Hget; cbn; lia).
  rewrite H0.
  apply bind_ext. intros res h1. destruct (ResultClass.isErr res); [reflexivity|].
  apply bind_ext. intros v h2. apply IH. intros j Hj.
  replace (S i + j) with (i + S j) by lia. apply Hget. cbn. lia.
Qed.

(** X27: [tuple(parsers)] reads the positions [0 .. parsers.length - 1]
    of its input and nothing else: two arrays that read the same at these
    positions (a position past the end reads [undefined]) get the same
    result, so items beyond the parsers are ignored; and the array it
    returns has one item for each parser. *)
Theorem tuple_reads_its_positions (parsers : list P.Parser) (input1 input2 : JsValue) :
  isArray input1 = true ->
  isArray input2 = true ->
  (forall j, j < length parsers -> array_get input1 j = array_get input2 j) ->
  (forall h, P.run (P.tuple parsers) input1 h = P.run (P.tuple parsers) input2 h) /\
  (forall h v h', P.run (P.tuple parsers) input1 h = (Returns (Ok v), h') ->
     exists vs, v = VArray vs /\ length vs = length parsers).
Proof.
  intros H1 H2 Hget. split.
  - intros h. rewrite !run_tuple by assumption. apply tuple_loop_ext. exact Hget.
  - intros h v h' Hrun. rewrite run_tuple in Hrun by assumption.
    apply tuple_loop_inv in Hrun as (vs & -> & Hvs). exists vs. split; [reflexivity|].
    apply Forall2_length in Hvs. rewrite <- Hvs. clear.
    generalize 0. induction parsers as [|p parsers IH]; intros i; cbn; [reflexivity|].
    f_equal. apply IH.
Qed.

Lemma tuple_reads_its_positions_witness :
  P.run (P.tuple [P.number None; P.string_ None])
    (VArray [VNumber (Finite 1); VString "a"; VBoolean true]) []
  = P.run (P.tuple [P.number None; P.string_ None])
      (VArray [VNumber (Finite 1); VString "a"]) [].
Proof.
  refine (proj1 (tuple_reads_its_positions [P.number None; P.string_ None]
                   (VArray [VNumber (Finite 1); VString "a"; VBoolean true])
                   (VArray [VNumber (Finite 1); VString "a"]) eq_refl eq_refl _) []).
  intros [|[|j]] Hj; [reflexivity | reflexivity | cbn in Hj; lia].
Defined.

Lemma object_loop_ext : forall shape input1 input2 obj h,
  (forall key, In key (List.map fst shape) -> get input1 key = get input2 key) ->
  P.object_loop shape input1 obj h = P.object_loop shape input2 obj h.
Proof.
  induction shape as [|[key p] shape IH]; intros input1 input2 obj h Hget;
    simpl P.object_loop; [reflexivity|].
  rewrite <- (Hget key) by (left; reflexivity).
  apply bind_ext. intros res h1. destruct (ResultClass.isErr res); [reflexivity|].
  apply bind_ext. intros v h2. apply IH. intros k Hk. apply Hget. right. exact Hk.
Qed.

Lemma lookup_property_is_Some props key :
  is_Some (lookup_property props key) <-> In key (List.map fst props).
Proof.
  induction props as [|[k v] props IH]; cbn.
  - split; [intros [? [=]] | tauto].
  - destruct (String.eqb_spec k key) as [->|Hne].
    + split; [tauto | eauto].
    + rewrite IH. tauto.
Qed.

(** X28: [object(shape)] reads its input at the keys of the shape and
    nowhere else.  Take two plain objects and a shape such that no read
    [input[key]] at a key of the shape falls through to a member of
    [Object.prototype] (the object owns the key, or has no prototype, or
    the key names no such member; this is where [get] is the program's
    read).  If the two read the same at the keys of the shape, they get
    the same result, so properties the shape does not name are ignored
    (and a missing one reads [undefined]); and the object returned has no
    prototype and has the keys of the shape, no other, as its
    properties. *)
Theorem object_reads_shape_keys (shape : list (string * P.Parser)) (input1 input2 : JsValue) :
  isPlainObject input1 = true ->
  isPlainObject input2 = true ->
  (forall key, In key (List.map fst shape) ->
     reads_prototype input1 key = false /\ reads_prototype input2 key = false) ->
  (forall key, In key (List.map fst shape) -> get input1 key = get input2 key) ->
  (forall h, P.run (P.object shape) input1 h = P.run (P.object shape) input2 h) /\
  (forall h v h', P.run (P.object shape) input1 h = (Returns (Ok v), h') ->
     exists out, v = VObject NullPrototype out /\
       forall key, is_Some (lookup_property out key) <-> In key (List.map fst shape)).
Proof.
  intros H1 H2 _ Hget. split.
  - intros h. rewrite !run_object by assumption. apply object_loop_ext. exact Hget.
  - intros h v h' Hrun. rewrite run_object in Hrun by assumption.
    apply object_loop_inv in Hrun as (vs & -> & Hvs). eexists. split; [reflexivity|].
    intros key. rewrite lookup_assign_all.
    assert (Hlen : length (List.map fst shape) = length vs)
      by (rewrite length_map; eapply Forall2_length; exact Hvs).
    rewrite <- (map_fst_zip (List.map fst shape) vs Hlen) at 2.
    rewrite (in_rev (List.map fst _)), <- map_rev, <- lookup_property_is_Some.
    destruct (lookup_property (rev _) key); cbn; [reflexivity|].
    split; intros [? [=]].
Qed.

Lemma object_reads_shape_keys_witness :
  P.run (P.object [("a", P.number None); ("c", P.maybe (P.string_ None))])
    (VObject ObjectPrototype [("a", VNumber (Finite 1)); ("b", VString "x")]) []
  = P.run (P.object [("a", P.number None); ("c", P.maybe (P.string_ None))])
      (VObject NullPrototype [("a", VNumber (Finite 1))]) [].
Proof.
  refine (proj1 (object_reads_shape_keys
                   [("a", P.number None); ("c", P.maybe (P.string_ None))]
                   (VObject ObjectPrototype [("a", VNumber (Finite 1)); ("b", VString "x")])
                   (VObject NullPrototype [("a", VNumber (Finite 1))])
                   eq_refl eq_refl _ _) []).
  - intros key [<-|[<-|[]]]; split; reflexivity.
  - intros key [<-|[<-|[]]]; reflexivity.
Defined.

(** ** [chain], [map] and [literal] *)

(** X29: [chain] with no function is the parser itself, a [chain] of a
    [chain] is one [chain] with the functions of both in order, and
    [chain(parser, ...fns)] is [map] with the function that applies
    [fns] and wraps the outcome in [Ok]; [map] with [Ok] is the parser
    itself, and two [map]s are one [map] with the two functions
    composed by [andThen].  In each case an error of the parser, or what
    it throws, is passed on as it is. *)
Theorem chain_map_laws (parser : P.Parser) (fns gns : list (JsValue -> JsValue))
    (f g : JsValue -> P.M (Result JsValue nat)) (input : JsValue) (h : P.Heap) :
  P.run (P.chain parser []) input h = P.run parser input h /\
  P.run (P.chain (P.chain parser fns) gns) input h
    = P.run (P.chain parser (fns ++ gns)) input h /\
  P.run (P.chain parser fns) input h
    = P.run (P.map parser (fun v => P.ret (Ok (fold_left (fun v f => f v) fns v)))) input h /\
  P.run (P.map parser (fun v => P.ret (Ok v))) input h = P.run parser input h /\
  P.run (P.map (P.map parser f) g) input h
    = P.run (P.map parser (fun v => P.run (P.map (P.arrow f) g) v)) input h.
Proof.
  cbn. unfold P.bind. destruct (P.run parser input h) as [[[v|r]|e] h1]; cbn;
    rewrite ?fold_left_app; repeat split.
Qed.

Lemma strictly_equals_refl constant :
  constant <> P.LNumber NaN ->
  P.strictly_equals (P.Literal_value constant) constant = true.
Proof.
  destruct constant as [s|[| | |z]|[]|]; cbn; intros Hc; try reflexivity.
  - apply String.eqb_refl.
  - contradiction.
  - apply Z.eqb_refl.
Qed.

(** X30: [literal(constant)] returns [Ok(constant)] exactly when the
    input is the constant, and then makes no error, with one exception:
    [literal(NaN)] turns every input down, [NaN] included, since
    [NaN === NaN] is false; the error then expects ["NaN"]. *)
Theorem literal_spec (constant : P.Literal) (input : JsValue) (h : P.Heap) :
  ((exists v h', P.run (P.literal constant) input h = (Returns (Ok v), h'))
   <-> input = P.Literal_value constant /\ constant <> P.LNumber NaN) /\
  (input = P.Literal_value constant -> constant <> P.LNumber NaN ->
   P.run (P.literal constant) input h = (Returns (Ok input), h)) /\
  rejects (P.literal (P.LNumber NaN)) input "NaN".
Proof.
  split; [split|split].
  - intros (v & h' & Hrun). cbn in Hrun.
    destruct (P.strictly_equals input constant) eqn:Heq.
    + split; [apply strictly_equals_eq, Heq|]. intros ->.
      destruct input as [| | |[]| | | | | |]; discriminate.
    + destruct (String_ (P.Literal_value constant)); discriminate.
  - intros [-> Hc]. cbn. rewrite strictly_equals_refl by exact Hc. eauto.
  - intros -> Hc. cbn. rewrite strictly_equals_refl by exact Hc. reflexivity.
  - intros h0. cbn. destruct input as [| | |[]| | | | | |]; reflexivity.
Qed.

End ParserLaws.

(** * The model on the inputs of the test suite *)

Module Checks.

Example number_rejects_infinity_and_nan :
  P.run (P.number None) (VNumber PosInfinity) []
  = (Returns (Err 0),
     [P.mkParseError "Type 'infinity' is not assignable to type 'number'"
        "number" "infinity" (VNumber PosInfinity) []]) /\
  P.run (P.number None) (VNumber NaN) []
  = (Returns (Err 0),
     [P.mkParseError "Type 'nan' is not assignable to type 'number'"
        "number" "nan" (VNumber NaN) []]) /\
  P.run (P.number None) (VNumber (Finite 42)) [] = (Returns (Ok (VNumber (Finite 42))), []).
Proof. repeat split. Qed.

Example number_coerces_digits :
  P.run (P.number coerce_on) (VString "123") [] = (Returns (Ok (VNumber (Finite 123))), []).
Proof. reflexivity. Qed.

Example array_reports_the_index :
  P.run (P.array (P.number None))
    (VArray [VNumber (Finite 1); VNumber (Finite 2); VString "3"]) []
  = (Returns (Err 0),
     [P.mkParseError "Type 'string' is not assignable to type 'number'"
        "number" "string" (VString "3") ["2"]]).
Proof. vm_compute. reflexivity. Qed.

Example object_drops_unknown_keys :
  P.run (P.object [("a", P.number None); ("b", P.string_ None)])
    (VObject ObjectPrototype
       [("a", VNumber (Finite 1)); ("b", VString "x"); ("c", VBoolean true)]) []
  = (Returns (Ok (VObject NullPrototype [("a", VNumber (Finite 1)); ("b", VString "x")])),
     []).
Proof. vm_compute. reflexivity. Qed.

Example tuple_ignores_extra_items :
  P.run (P.tuple [P.number None; P.string_ None])
    (VArray [VNumber (Finite 10); VString "hi"; VString "extra"]) []
  = (Returns (Ok (VArray [VNumber (Finite 10); VString "hi"])), []).
Proof. reflexivity. Qed.

Example tuple_reads_undefined_past_the_end :
  P.run (P.tuple [P.number None; P.string_ None]) (VArray [VNumber (Finite 10)]) []
  = (Returns (Err 0),
     [P.mkParseError "Type 'undefined' is not assignable to type 'string'"
        "string" "undefined" VUndefined ["1"]]).
Proof. vm_compute. reflexivity. Qed.

Example union_of_anonymous_parsers :
  P.run (P.union [P.string_ None; P.number None]) (VBoolean true) []
  = (Returns (Err 2),
     [P.mkParseError "Type 'boolean' is not assignable to type 'string'"
        "string" "boolean" (VBoolean true) [];
      P.mkParseError "Type 'boolean' is not assignable to type 'number'"
        "number" "boolean" (VBoolean true) [];
      P.mkParseError "Type 'boolean' is not assignable to type ' | '"
        " | " "boolean" (VBoolean true) []]).
Proof. reflexivity. Qed.

Example record_of_literal_keys :
  P.run (P.record (P.union [P.literal (P.LString "john"); P.literal (P.LString "mary")])
           (P.number None))
    (VObject ObjectPrototype [("john", VNumber (Finite 10)); ("mary", VNumber (Finite 20))])
    []
  = (Returns (Ok (VObject NullPrototype
                    [("john", VNumber (Finite 10)); ("mary", VNumber (Finite 20))])),
     [P.mkParseError "Type 'string' is not assignable to type 'john'"
        "john" "string" (VString "mary") []]).
Proof. vm_compute. reflexivity. Qed.

Example record_orders_index_keys_first :
  set_property (set_property (set_property [] "b" VNull) "2" VNull) "1" VNull
  = [("1", VNull); ("2", VNull); ("b", VNull)].
Proof. vm_compute. reflexivity. Qed.

Example option_filter_function :
  OptionFn.filter (Some 69%Z) (fun v => (v =? 69)%Z) = Some 69%Z /\
  OptionFn.filter (@None Z) (fun v => (v =? 70)%Z) = None.
Proof. split; reflexivity. Qed.

End Checks.
